(** * tapes: the content-addressed conversation DAG and the chat proxy

    A shallow embedding of [pkg/merkle] (node model and hasher), of the
    [Storer] interface, and of the proxy handlers of [proxy/proxy.go]
    ([storeConversationTurn], [handleNonStreamingChat],
    [handleStreamingChat], [handleGetNode]), together with the parts of
    the Go standard library they call ([crypto/sha256], [encoding/hex],
    [encoding/json], [bufio]); further, of the entry point [handleChat],
    the inspection endpoints ([handleDAGStats], [handleListHistories],
    [handleGetHistory], [buildHistory]) and [truncate] of the proxy,
    and of the merge and push commands of [cmd/tapes].

    Go strings and byte slices are [string]s (sequences of 8-bit
    characters); machine integers are [Z] with their wrap-around written
    out; Go maps are [gmap]s; a pointer that may be nil is an [option].

    What lies outside the handlers is a parameter of the development:
    the decoders [json.Unmarshal], the outcome of the upstream call, the
    bytes the upstream body yields before it ends or fails, and the
    number of writes the client takes before it disconnects. The
    function handed to [SetBodyStreamWriter] is followed as one
    sequential run over what it reads of the body; a body closed under
    the scanner shows as a read error. *)

From Stdlib Require Import ZArith String Ascii List DecimalString.
From stdpp Require Import gmap strings list fin_maps sorting.

Local Open Scope string_scope.
Local Open Scope Z_scope.
Local Open Scope list_scope.

(** ** encoding/hex and crypto/sha256 *)

Module Hex.

(** [const hextable = "0123456789abcdef"] *)
Definition hextable : string := "0123456789abcdef".

(** [hextable[i]]; the index is always below 16 at the call sites. *)
Definition hexdigit (i : Z) : ascii :=
  match String.get (Z.to_nat i) hextable with
  | Some c => c
  | None => "?"%char
  end.

(** [hex.EncodeToString]: for each byte [v], [hextable[v>>4]] then
    [hextable[v&0x0f]]. *)
Fixpoint EncodeToString (src : list Z) : string :=
  match src with
  | [] => EmptyString
  | v :: rest =>
      String (hexdigit (Z.shiftr v 4))
        (String (hexdigit (Z.land v 15)) (EncodeToString rest))
  end.

(** The character class [a-f0-9] of the repository's test
    [MatchRegexp("^[a-f0-9]{64}$")]. *)
Definition is_lower_hex (c : ascii) : bool :=
  let n := Z.of_N (N_of_ascii c) in
  (Z.leb 48 n && Z.leb n 57) || (Z.leb 97 n && Z.leb n 102).

Fixpoint all_lower_hex (s : string) : bool :=
  match s with
  | EmptyString => true
  | String c rest => is_lower_hex c && all_lower_hex rest
  end.

End Hex.

Module Sha256.

(** [uint32] arithmetic: results are reduced modulo 2^32. *)
Definition wrap32 (x : Z) : Z := x mod 2 ^ 32.

(** [bits.RotateLeft32(x, -k)]: rotation to the right by [k] bits. *)
Definition rotr (x k : Z) : Z :=
  Z.lor (Z.shiftr x k) (wrap32 (Z.shiftl x (32 - k))).

(** [^x] on a [uint32]. *)
Definition not32 (x : Z) : Z := Z.lxor x 4294967295.

(** The round constants [_K] of [sha256block.go], in decimal. *)
Definition _K : list Z :=
  [
    1116352408; 1899447441; 3049323471; 3921009573; 961987163; 1508970993;
    2453635748; 2870763221; 3624381080; 310598401; 607225278; 1426881987;
    1925078388; 2162078206; 2614888103; 3248222580; 3835390401; 4022224774;
    264347078; 604807628; 770255983; 1249150122; 1555081692; 1996064986;
    2554220882; 2821834349; 2952996808; 3210313671; 3336571891; 3584528711;
    113926993; 338241895; 666307205; 773529912; 1294757372; 1396182291;
    1695183700; 1986661051; 2177026350; 2456956037; 2730485921; 2820302411;
    3259730800; 3345764771; 3516065817; 3600352804; 4094571909; 275423344;
    430227734; 506948616; 659060556; 883997877; 958139571; 1322822218;
    1537002063; 1747873779; 1955562222; 2024104815; 2227730452; 2361852424;
    2428436474; 2756734187; 3204031479; 3329325298
  ]%Z.

(** The eight chaining words [h [8]uint32] of a [digest]. *)
Record digest : Type := Digest {
  h0 : Z; h1 : Z; h2 : Z; h3 : Z; h4 : Z; h5 : Z; h6 : Z; h7 : Z
}.

Definition init : digest :=
  Digest 0x6a09e667 0xbb67ae85 0x3c6ef372 0xa54ff53a
         0x510e527f 0x9b05688c 0x1f83d9ab 0x5be0cd19.

(** [w[i]] for an index known to be in range. *)
Definition word_at (w : list Z) (i : nat) : Z := nth i w 0.

(** The first sixteen schedule words: big-endian 32-bit reads of the
    64-byte chunk. *)
Fixpoint load_words (n : nat) (p : list Z) : list Z :=
  match n with
  | O => []
  | S n' =>
      match p with
      | b0 :: b1 :: b2 :: b3 :: rest =>
          Z.lor (Z.lor (Z.lor (Z.shiftl b0 24) (Z.shiftl b1 16))
                       (Z.shiftl b2 8)) b3
          :: load_words n' rest
      | _ => []
      end
  end.

(** [for i := 16; i < 64; i++ { w[i] = t1 + w[i-7] + t2 + w[i-16] }];
    [n] counts the words still to be produced. *)
Fixpoint extend_schedule (n : nat) (w : list Z) : list Z :=
  match n with
  | O => w
  | S n' =>
      let i := length w in
      let v1 := word_at w (i - 2) in
      let t1 := Z.lxor (Z.lxor (rotr v1 17) (rotr v1 19)) (Z.shiftr v1 10) in
      let v2 := word_at w (i - 15) in
      let t2 := Z.lxor (Z.lxor (rotr v2 7) (rotr v2 18)) (Z.shiftr v2 3) in
      extend_schedule n'
        (w ++ [wrap32 (t1 + word_at w (i - 7) + t2 + word_at w (i - 16))])
  end.

(** One iteration of the compression loop on the working variables
    [a..h], with round constant [k] and schedule word [wi]. *)
Definition round (st : digest) (kw : Z * Z) : digest :=
  let '(Digest a b c d e f g h) := st in
  let '(k, wi) := kw in
  let t1 := wrap32 (h
              + Z.lxor (Z.lxor (rotr e 6) (rotr e 11)) (rotr e 25)
              + Z.lxor (Z.land e f) (Z.land (not32 e) g)
              + k + wi) in
  let t2 := wrap32 (Z.lxor (Z.lxor (rotr a 2) (rotr a 13)) (rotr a 22)
              + Z.lxor (Z.lxor (Z.land a b) (Z.land a c)) (Z.land b c)) in
  Digest (wrap32 (t1 + t2)) a b c (wrap32 (d + t1)) e f g.

(** [blockGeneric] on one 64-byte chunk. *)
Definition block (dig : digest) (p : list Z) : digest :=
  let w := extend_schedule 48 (load_words 16 p) in
  let r := fold_left round (combine _K w) dig in
  Digest (wrap32 (h0 dig + h0 r)) (wrap32 (h1 dig + h1 r))
         (wrap32 (h2 dig + h2 r)) (wrap32 (h3 dig + h3 r))
         (wrap32 (h4 dig + h4 r)) (wrap32 (h5 dig + h5 r))
         (wrap32 (h6 dig + h6 r)) (wrap32 (h7 dig + h7 r)).

(** [for len(p) >= chunk { ...; p = p[chunk:] }] *)
Fixpoint blocks (fuel : nat) (dig : digest) (p : list Z) : digest :=
  match fuel with
  | O => dig
  | S fuel' =>
      if Z.leb 64 (Z.of_nat (length p))
      then blocks fuel' (block dig (firstn 64 p)) (skipn 64 p)
      else dig
  end.

(** [binary.BigEndian.PutUint64] *)
Definition be64 (x : Z) : list Z :=
  map (fun k => Z.land (Z.shiftr x k) 255) [56; 48; 40; 32; 24; 16; 8; 0]%Z.

(** [binary.BigEndian.PutUint32] *)
Definition be32 (x : Z) : list Z :=
  map (fun k => Z.land (Z.shiftr x k) 255) [24; 16; 8; 0]%Z.

(** The padding written by [checkSum]: [0x80], zeros up to 56 modulo
    64, then the length in bits as a [uint64]. *)
Definition padding (len : Z) : list Z :=
  let t := if Z.ltb (len mod 64) 56 then 56 - len mod 64
           else 64 + 56 - len mod 64 in
  128 :: repeat 0 (Z.to_nat (t - 1)) ++ be64 ((len * 8) mod 2 ^ 64).

(** [sha256.Sum256]: the 32 bytes of the digest. *)
Definition Sum256 (data : list Z) : list Z :=
  let p := data ++ padding (Z.of_nat (length data)) in
  let d := blocks (length p) init p in
  be32 (h0 d) ++ be32 (h1 d) ++ be32 (h2 d) ++ be32 (h3 d) ++
  be32 (h4 d) ++ be32 (h5 d) ++ be32 (h6 d) ++ be32 (h7 d).

End Sha256.

(** Bytes of a Go string. *)
Definition bytes_of (s : string) : list Z :=
  map (fun c => Z.of_N (N_of_ascii c)) (list_ascii_of_string s).


(** ** encoding/json *)

Module Json.

(** The values an [any] holds in this program. [VUnsupported] stands for
    what [encoding/json] refuses to encode (a channel, a function, a
    NaN): [json.Marshal] returns an error on it. *)
#[warnings="-register-all"]
Inductive value : Type :=
| VNil
| VBool (b : bool)
| VInt (n : Z)
| VString (s : string)
| VSlice (l : list value)
| VMap (m : gmap string value)
| VUnsupported.

Definition byte_of (c : ascii) : Z := Z.of_N (N_of_ascii c).

(** [utf8.DecodeRuneInString] restricted to what [appendString] asks of
    it: the size of the well-formed encoding at the head of the bytes,
    or [None] for [(RuneError, 1)]. *)
Definition continuation (b : Z) : bool := Z.leb 128 b && Z.leb b 191.

Definition rune_size (bs : list Z) : option nat :=
  match bs with
  | [] => None
  | b0 :: rest =>
      if Z.ltb b0 194 then None
      else if Z.leb b0 223 then
        match rest with
        | b1 :: _ => if continuation b1 then Some 2%nat else None
        | _ => None
        end
      else if Z.leb b0 239 then
        let lo := if Z.eqb b0 224 then 160 else 128 in
        let hi := if Z.eqb b0 237 then 159 else 191 in
        match rest with
        | b1 :: b2 :: _ =>
            if Z.leb lo b1 && Z.leb b1 hi && continuation b2
            then Some 3%nat else None
        | _ => None
        end
      else if Z.leb b0 244 then
        let lo := if Z.eqb b0 240 then 144 else 128 in
        let hi := if Z.eqb b0 244 then 143 else 191 in
        match rest with
        | b1 :: b2 :: b3 :: _ =>
            if Z.leb lo b1 && Z.leb b1 hi && continuation b2
               && continuation b3
            then Some 4%nat else None
        | _ => None
        end
      else None
  end.

(** [htmlSafeSet]: printable ASCII except the quote, the backslash and
    the three characters [<], [>], [&]. *)
Definition htmlSafe (b : Z) : bool :=
  Z.leb 32 b && Z.ltb b 128
  && negb (Z.eqb b 34) && negb (Z.eqb b 92)
  && negb (Z.eqb b 60) && negb (Z.eqb b 62) && negb (Z.eqb b 38).

(** The escape [appendString] writes for an ASCII byte outside
    [htmlSafeSet]. *)
Definition escape_ascii (c : ascii) : string :=
  let b := byte_of c in
  if Z.eqb b 92 || Z.eqb b 34 then String (ascii_of_N 92) (String c EmptyString)
  else if Z.eqb b 8 then "\b"
  else if Z.eqb b 12 then "\f"
  else if Z.eqb b 10 then "\n"
  else if Z.eqb b 13 then "\r"
  else if Z.eqb b 9 then "\t"
  else "\u00" +:+ String (Hex.hexdigit (Z.shiftr b 4))
                   (String (Hex.hexdigit (Z.land b 15)) EmptyString).

(** The loop of [appendString] with [escapeHTML] set. [copy] counts the
    trailing bytes of a well-formed multi-byte rune still to be copied,
    [drop] the trailing bytes of U+2028 or U+2029, whose escape has
    already been written. *)
Fixpoint escape_from (copy drop : nat) (src : string) : string :=
  match src with
  | EmptyString => EmptyString
  | String c rest =>
      match copy, drop with
      | S k, _ => String c (escape_from k drop rest)
      | O, S k => escape_from 0 k rest
      | O, O =>
          let b := byte_of c in
          if Z.ltb b 128 then
            if htmlSafe b then String c (escape_from 0 0 rest)
            else escape_ascii c +:+ escape_from 0 0 rest
          else
            let tail := map byte_of (list_ascii_of_string rest) in
            match rune_size (b :: tail) with
            | None => "\ufffd" +:+ escape_from 0 0 rest
            | Some n =>
                match b, tail with
                | 226, 128 :: 168 :: _ => "\u2028" +:+ escape_from 0 2 rest
                | 226, 128 :: 169 :: _ => "\u2029" +:+ escape_from 0 2 rest
                | _, _ => String c (escape_from (n - 1) 0 rest)
                end
            end
      end
  end.

(** The double quote. *)
Definition quote : ascii := ascii_of_N 34.

(** A name between double quotes, as an object key is written. *)
Definition quoted (name : string) : string :=
  String quote (name +:+ String quote EmptyString).

(** [appendString]: the quoted, escaped JSON form of a Go string. *)
Definition appendString (src : string) : string :=
  String quote (escape_from 0 0 src) +:+ String quote EmptyString.

(** [strconv.AppendInt(_, n, 10)] *)
Definition appendInt (n : Z) : string := NilZero.string_of_int (Z.to_int n).

(** Map keys are written in increasing byte order ([slices.SortFunc] with
    [strings.Compare]). *)
Definition key_le_opt (a b : string * option string) : Prop :=
  String.leb a.1 b.1 = true.

#[global] Instance key_le_opt_dec a b : Decision (key_le_opt a b).
Proof. unfold key_le_opt. apply _. Defined.

(** Elements joined by commas; an element that fails to encode makes the
    whole encoding fail. *)
Fixpoint join_elems (es : list (option string)) : option string :=
  match es with
  | [] => Some EmptyString
  | [e] => e
  | e :: rest =>
      match e, join_elems rest with
      | Some x, Some xs => Some (x +:+ "," +:+ xs)
      | _, _ => None
      end
  end.

Definition member (kv : string * option string) : option string :=
  match kv.2 with
  | Some e => Some (appendString kv.1 +:+ ":" +:+ e)
  | None => None
  end.

(** [json.Marshal] on an [any]: [Some] encoding, or [None] for the
    [UnsupportedTypeError] / [UnsupportedValueError] results. *)
Fixpoint Marshal (v : value) : option string :=
  match v with
  | VNil => Some "null"
  | VBool b => Some (if b then "true" else "false")
  | VInt n => Some (appendInt n)
  | VString s => Some (appendString s)
  | VSlice l =>
      match join_elems (map Marshal l) with
      | Some body => Some ("[" +:+ body +:+ "]")
      | None => None
      end
  | VMap m =>
      match join_elems
              (map member
                 (merge_sort key_le_opt (map_to_list (Marshal <$> m)))) with
      | Some body => Some ("{" +:+ body +:+ "}")
      | None => None
      end
  | VUnsupported => None
  end.

End Json.

(** ** Go control flow: errors and panics *)

(** An [error] value: the [ErrNotFound] of [pkg/merkle], any other error
    with its message, and [fmt.Errorf("...: %w", err)] wrappers. *)
Inductive error : Type :=
| ErrNotFound (hash : string)
| ErrMessage (msg : string)
| ErrWrap (prefix : string) (cause : error).

(** [ErrNotFound.Error] and the texts of the other errors. *)
Fixpoint Error (e : error) : string :=
  match e with
  | ErrNotFound hash =>
      if decide (hash = EmptyString) then "node not found"
      else "node not found: " +:+ hash
  | ErrMessage msg => msg
  | ErrWrap prefix cause => prefix +:+ ": " +:+ Error cause
  end.

(** A call either returns or panics. *)
Inductive outcome (A : Type) : Type :=
| Returns (a : A)
| Panics (msg : string).
Arguments Returns {A} a.
Arguments Panics {A} msg.

(** A Go result pair [(T, error)]. *)
Inductive result (A : Type) : Type :=
| Ok (a : A)
| Err (e : error).
Arguments Ok {A} a.
Arguments Err {A} e.

(** [context.Background()] and the context of the client's request
    ([c.Context()]). *)
Inductive Context : Type :=
| Background
| RequestCtx.

(** ** pkg/merkle *)

Module Merkle.
Import Json.

(** [type Node struct]; [ParentHash] is nil for root nodes. *)
Record Node : Type := mkNode {
  Hash : string;
  ParentHash : option string;
  Content : value
}.

(** Modelled from the spec: the declaration of the [input] struct that
    [computeHash] marshals is not among the sources; its encoding is the
    object [{ "content": content, "parent": parent_hash_or_empty_string }]. *)
Record input : Type := mkInput {
  input_Content : value;
  input_Parent : string
}.

Definition marshal_input (i : input) : option string :=
  match Marshal (input_Content i) with
  | Some c =>
      Some ("{" +:+ quoted "content" +:+ ":" +:+ c
            +:+ "," +:+ quoted "parent" +:+ ":"
            +:+ appendString (input_Parent i) +:+ "}")
  | None => None
  end.

(** [func (n *Node) computeHash() string] *)
Definition computeHash (n : Node) : outcome string :=
  let i := mkInput (Content n)
             (match ParentHash n with
              | Some h => h
              | None => EmptyString
              end) in
  match marshal_input i with
  | None => Panics "failed to marshal hash input"
  | Some data =>
      let h := Sha256.Sum256 (bytes_of data) in
      Returns (Hex.EncodeToString h)
  end.

(** [func NewNode(content any, parent *Node) *Node] *)
Definition NewNode (content : value) (parent : option Node) : outcome Node :=
  let n := mkNode EmptyString (match parent with
                      | Some p => Some (Hash p)
                      | None => None
                      end) content in
  match computeHash n with
  | Returns h => Returns (mkNode h (ParentHash n) (Content n))
  | Panics msg => Panics msg
  end.

(** [type Storer interface], for a backend whose state has type [S]:
    the methods the proxy paths under study call. [Put] takes the node
    pointer, which may be nil. *)
Class Storer (S : Type) : Type := {
  Put : Context → S → option Node → S * option error;
  Get : Context → S → string → result Node;
  List : Context → S → result (list Node)
}.

(** Modelled from the spec: the in-memory backend behind
    [NewMemoryStorer], whose implementation is not among the sources, is
    a mapping from hash to node, guarded by a lock; [put] inserts the
    node if its hash is absent and reports whether it was new, and fails
    on a nil node. *)
Definition mem_put (s : gmap string Node) (node : option Node)
  : gmap string Node * result bool :=
  match node with
  | None => (s, Err (ErrMessage "cannot store nil node"))
  | Some n =>
      match s !! Hash n with
      | Some _ => (s, Ok false)
      | None => (<[Hash n := n]> s, Ok true)
      end
  end.

Definition mem_get (s : gmap string Node) (hash : string) : result Node :=
  match s !! hash with
  | Some n => Ok n
  | None => Err (ErrNotFound hash)
  end.

Definition mem_list (s : gmap string Node) : list Node :=
  (map_to_list s).*2.

#[global] Instance MemoryStorer : Storer (gmap string Node) := {
  Put _ s node :=
    match mem_put s node with
    | (s', Ok _) => (s', None)
    | (s', Err e) => (s', Some e)
    end;
  Get _ s hash := mem_get s hash;
  List _ s := Ok (mem_list s)
}.

(** [NewMemoryStorer()] *)
Definition NewMemoryStorer : gmap string Node := ∅.

(** A backend that cannot reach its storage: every call returns the
    same storage error and the state never changes. *)
Inductive Unreachable : Type := unreachable.

#[global] Instance UnreachableStorer : Storer Unreachable := {
  Put _ s _ := (s, Some (ErrMessage "database is locked"));
  Get _ _ _ := Err (ErrMessage "database is locked");
  List _ _ := Err (ErrMessage "database is locked")
}.

End Merkle.

(** ** pkg/llm *)

Module Llm.
Import Json.

(** [type Message struct] *)
Record Message : Type := mkMessage {
  Role : string;
  Content : string;
  Images : list string
}.

(** [type ChatRequest struct]. [Stream] is a [*bool]. The [Options]
    field (sampling parameters, several of them floating point) is only
    forwarded to the upstream and is left out. *)
Record ChatRequest : Type := mkChatRequest {
  Model : string;
  Messages : list Message;
  Stream : option bool;
  Format : string;
  KeepAlive : string
}.

(** [type ChatResponse struct]. [CreatedAt] is a [time.Time], kept as
    its RFC 3339 text; the counters are [int] and [int64]. *)
Record ChatResponse : Type := mkChatResponse {
  resp_Model : string;
  resp_CreatedAt : string;
  resp_Message : Message;
  resp_Done : bool;
  TotalDuration : Z;
  LoadDuration : Z;
  PromptEvalCount : Z;
  PromptEvalDuration : Z;
  EvalCount : Z;
  EvalDuration : Z;
  resp_Context : list Z
}.

(** [type StreamChunk struct] *)
Record StreamChunk : Type := mkStreamChunk {
  chunk_Model : string;
  chunk_CreatedAt : string;
  chunk_Message : Message;
  chunk_Done : bool;
  chunk_TotalDuration : Z;
  chunk_LoadDuration : Z;
  chunk_PromptEvalCount : Z;
  chunk_PromptEvalDuration : Z;
  chunk_EvalCount : Z;
  chunk_EvalDuration : Z
}.

(** [type ErrorResponse struct { Error string `json:"error"` }] *)
Record ErrorResponse : Type := mkErrorResponse { err_Error : string }.

(** [json.Marshal] of an [ErrorResponse]. *)
Definition marshal_ErrorResponse (e : ErrorResponse) : string :=
  "{" +:+ quoted "error" +:+ ":" +:+ appendString (err_Error e) +:+ "}".

(** A struct field tagged [omitempty] is left out when it is zero. *)
Definition omitempty_int (name : string) (n : Z) : string :=
  if Z.eqb n 0 then EmptyString
  else "," +:+ quoted name +:+ ":" +:+ appendInt n.

Fixpoint join_strings (l : list string) : string :=
  match l with
  | [] => EmptyString
  | [x] => x
  | x :: rest => x +:+ "," +:+ join_strings rest
  end.

Definition marshal_Message (m : Message) : string :=
  "{" +:+ quoted "role" +:+ ":" +:+ appendString (Role m)
  +:+ "," +:+ quoted "content" +:+ ":" +:+ appendString (Content m)
  +:+ (match Images m with
       | [] => EmptyString
       | imgs => "," +:+ quoted "images" +:+ ":["
                 +:+ join_strings (map appendString imgs) +:+ "]"
       end)
  +:+ "}".

(** [json.Marshal] of a [ChatResponse]: the fields in declaration
    order, the metrics and the context only when non-zero. *)
Definition marshal_ChatResponse (r : ChatResponse) : string :=
  "{" +:+ quoted "model" +:+ ":" +:+ appendString (resp_Model r)
  +:+ "," +:+ quoted "created_at" +:+ ":" +:+ appendString (resp_CreatedAt r)
  +:+ "," +:+ quoted "message" +:+ ":" +:+ marshal_Message (resp_Message r)
  +:+ "," +:+ quoted "done" +:+ ":" +:+ (if resp_Done r then "true" else "false")
  +:+ omitempty_int "total_duration" (TotalDuration r)
  +:+ omitempty_int "load_duration" (LoadDuration r)
  +:+ omitempty_int "prompt_eval_count" (PromptEvalCount r)
  +:+ omitempty_int "prompt_eval_duration" (PromptEvalDuration r)
  +:+ omitempty_int "eval_count" (EvalCount r)
  +:+ omitempty_int "eval_duration" (EvalDuration r)
  +:+ (match resp_Context r with
       | [] => EmptyString
       | ctx => "," +:+ quoted "context" +:+ ":["
                +:+ join_strings (map appendInt ctx) +:+ "]"
       end)
  +:+ "}".

End Llm.

(** ** bufio *)

Module Bufio.

Definition LF : ascii := ascii_of_N 10.
Definition CR : ascii := ascii_of_N 13.

(** [bufio.MaxScanTokenSize] *)
Definition MaxScanTokenSize : Z := 64 * 1024.

(** [dropCR] drops a terminal carriage return from the data. *)
Fixpoint dropCR (data : string) : string :=
  match data with
  | EmptyString => EmptyString
  | String c EmptyString =>
      if decide (c = CR) then EmptyString else data
  | String c rest => String c (dropCR rest)
  end.

(** A [bufio.Scanner] with the default split function [ScanLines] run
    to its end over a reader that yields the bytes [body] and then
    either end-of-file ([readErr = None]) or a read error. The result
    is the list of tokens for which [Scan] returned true, and
    [scanner.Err()]. [cur] is the part of the current line read so
    far. A line whose first [MaxScanTokenSize] bytes hold no newline
    stops the scanner with [bufio.ErrTooLong]; on a read error or at
    end-of-file the pending unterminated line is still delivered. *)
Fixpoint scan_from (cur : string) (body : string) (readErr : option error)
  : list string * option error :=
  match body with
  | EmptyString =>
      (match cur with
       | EmptyString => []
       | _ => [dropCR cur]
       end, readErr)
  | String c rest =>
      if decide (c = LF) then
        let '(tokens, e) := scan_from EmptyString rest readErr in
        (dropCR cur :: tokens, e)
      else
        let cur' := cur +:+ String c EmptyString in
        if Z.leb MaxScanTokenSize (Z.of_nat (String.length cur'))
        then ([], Some (ErrMessage "bufio.Scanner: token too long"))
        else scan_from cur' rest readErr
  end.

Definition scan (body : string) (readErr : option error)
  : list string * option error :=
  scan_from EmptyString body readErr.

(** The client's end of the response stream: the chunks it has
    received, one per write that reached it, and the number of writes
    it still accepts before it disconnects ([None]: it stays
    connected). *)
Record Conn : Type := mkConn {
  received : list string;
  accepts : option nat
}.

(** A write on the connection; [false] reports a write error. *)
Definition conn_write (c : Conn) (p : string) : Conn * bool :=
  match accepts c with
  | None => (mkConn (received c ++ [p]) None, true)
  | Some (S k) => (mkConn (received c ++ [p]) (Some k), true)
  | Some O => (c, false)
  end.

(** A [bufio.Writer] over the connection: the bytes buffered and the
    sticky write error. The buffer is taken large enough for a line, so
    that only [Flush] writes to the connection; the library hands a
    line longer than its buffer to the connection in two writes, with
    the same bytes in the same order. *)
Record Writer : Type := mkWriter {
  buf : string;
  err : bool;
  conn : Conn
}.

Definition NewWriter (c : Conn) : Writer := mkWriter EmptyString false c.

(** [w.Write(p)]; the proxy ignores the result. *)
Definition Write (w : Writer) (p : string) : Writer :=
  if err w then w else mkWriter (buf w +:+ p) false (conn w).

(** [w.Flush()]; the proxy ignores the result. *)
Definition Flush (w : Writer) : Writer :=
  if err w then w
  else match buf w with
       | EmptyString => w
       | data =>
           match conn_write (conn w) data with
           | (c', true) => mkWriter EmptyString false c'
           | (c', false) => mkWriter data true c'
           end
       end.

End Bufio.

(** ** proxy *)

Module Proxy.
Import Json Merkle Llm Bufio.

Inductive Level : Type := DebugLevel | InfoLevel | WarnLevel | ErrorLevel.

(** A call of [p.logger]: level and message (the fields are left out). *)
Definition LogEntry : Type := Level * string.

(** What the handler sends to the client: status code, headers set by
    the handler, and the body. For a [c.JSON] reply the body is one
    chunk; for a stream it is the chunks the client received. *)
Record Reply : Type := mkReply {
  Status : Z;
  Headers : list (string * string);
  Body : list string
}.

(** [c.Status(status).JSON(v)] with [v] already marshalled. *)
Definition JSON (status : Z) (body : string) : Reply :=
  mkReply status [("Content-Type", "application/json")] [body].

Definition StatusOK : Z := 200.
Definition StatusBadRequest : Z := 400.
Definition StatusNotFound : Z := 404.
Definition StatusInternalServerError : Z := 500.
Definition StatusBadGateway : Z := 502.

(** The outcomes of the calls that reach outside the handler:
    [json.Marshal(req)], [http.NewRequest], [p.httpClient.Do], and the
    reading of [httpResp.Body], which yields [Body] and then
    end-of-file or the read error [ReadErr]. *)
Inductive Upstream : Type :=
| MarshalFails (e : error)
| NewRequestFails (e : error)
| DoFails (e : error)
| Responds (StatusCode : Z) (Body : string) (ReadErr : option error).

(** An invocation of [storeConversationTurn], kept as a trace of the
    handlers. *)
Definition RecorderCall : Type := Context * ChatRequest * ChatResponse.

Section WithStorer.
Context {S : Type} `{!Storer S}.

(** [json.Unmarshal(line, &chunk)] and [json.Unmarshal(body, &resp)]
    of the standard library: [None] when they return an error. *)
Variable unmarshalChunk : string → option StreamChunk.
Variable unmarshalResponse : string → option ChatResponse.

(** The proxy's mutable surroundings: the store and the log. *)
Record World : Type := mkWorld {
  storer : S;
  logs : list LogEntry
}.

Definition log (w : World) (lvl : Level) (msg : string) : World :=
  mkWorld (storer w) (logs w ++ [(lvl, msg)]).

Definition messageContent (model : string) (msg : Message) : value :=
  VMap {[ "type" := VString "message";
          "role" := VString (Role msg);
          "content" := VString (Llm.Content msg);
          "model" := VString model ]}.

Definition responseContent (resp : ChatResponse) : value :=
  VMap {[ "type" := VString "message";
          "role" := VString (Role (resp_Message resp));
          "content" := VString (Llm.Content (resp_Message resp));
          "model" := VString (resp_Model resp);
          "metrics" := VMap {[
            "total_duration_ns" := VInt (TotalDuration resp);
            "prompt_eval_count" := VInt (PromptEvalCount resp);
            "prompt_eval_duration_ns" := VInt (PromptEvalDuration resp);
            "eval_count" := VInt (EvalCount resp);
            "eval_duration_ns" := VInt (EvalDuration resp) ]} ]}.

(** The loop [for _, msg := range req.Messages] of
    [storeConversationTurn]; it returns the last [parent]. *)
Fixpoint storeMessages (ctx : Context) (model : string)
    (msgs : list Message) (parent : option Node) (w : World)
  : outcome (World * result (option Node)) :=
  match msgs with
  | [] => Returns (w, Ok parent)
  | msg :: rest =>
      match NewNode (messageContent model msg) parent with
      | Panics m => Panics m
      | Returns node =>
          match Put ctx (storer w) (Some node) with
          | (s', Some e) =>
              Returns (mkWorld s' (logs w),
                       Err (ErrWrap "storing message node" e))
          | (s', None) =>
              storeMessages ctx model rest (Some node)
                (log (mkWorld s' (logs w)) DebugLevel "stored message in DAG")
          end
      end
  end.

(** [func (p *Proxy) storeConversationTurn(ctx, req, resp) (string, error)] *)
Definition storeConversationTurn (ctx : Context) (req : ChatRequest)
    (resp : ChatResponse) (w : World) : outcome (World * result string) :=
  match storeMessages ctx (Model req) (Messages req) None w with
  | Panics m => Panics m
  | Returns (w1, Err e) => Returns (w1, Err e)
  | Returns (w1, Ok parent) =>
      match NewNode (responseContent resp) parent with
      | Panics m => Panics m
      | Returns responseNode =>
          match Put ctx (storer w1) (Some responseNode) with
          | (s', Some e) =>
              Returns (mkWorld s' (logs w1),
                       Err (ErrWrap "storing response node" e))
          | (s', None) =>
              Returns (log (mkWorld s' (logs w1)) DebugLevel
                         "stored response in DAG",
                       Ok (Hash responseNode))
          end
      end
  end.

(** The result of a handler: the reply, the recorder invocations made
    on the way, and the surroundings afterwards. *)
Record Handled : Type := mkHandled {
  reply : Reply;
  recorded : list RecorderCall;
  world : World
}.

(** [func (p *Proxy) forwardRequest(req)], returning the decoded
    response or an error;
    it sets [req.Stream] to false through the pointer. *)
Definition forwardRequest (req : ChatRequest) (up : Upstream) (w : World)
  : ChatRequest * World * result ChatResponse :=
  let req' := mkChatRequest (Model req) (Messages req) (Some false)
                (Format req) (KeepAlive req) in
  match up with
  | MarshalFails e => (req', w, Err (ErrWrap "marshal request" e))
  | NewRequestFails e =>
      (req', log w DebugLevel "forwarding request to upstream",
       Err (ErrWrap "create request" e))
  | DoFails e =>
      (req', log w DebugLevel "forwarding request to upstream",
       Err (ErrWrap "do request" e))
  | Responds code body readErr =>
      let w' := log w DebugLevel "forwarding request to upstream" in
      match readErr with
      | Some e => (req', w', Err (ErrWrap "read response" e))
      | None =>
          if negb (Z.eqb code StatusOK) then
            (req', w',
             Err (ErrMessage ("upstream returned " +:+ appendInt code
                               +:+ ": " +:+ body)))
          else
            match unmarshalResponse body with
            | None =>
                (req', w',
                 Err (ErrWrap "unmarshal response"
                        (ErrMessage "invalid JSON")))
            | Some resp => (req', w', Ok resp)
            end
      end
  end.

(** [func (p *Proxy) handleNonStreamingChat(c, req, startTime) error] *)
Definition handleNonStreamingChat (req : ChatRequest) (up : Upstream)
    (w : World) : outcome Handled :=
  match forwardRequest req up w with
  | (_, w1, Err _) =>
      Returns (mkHandled
        (JSON StatusBadGateway
           (marshal_ErrorResponse (mkErrorResponse "upstream request failed")))
        []
        (log w1 ErrorLevel "failed to forward request"))
  | (req', w1, Ok resp) =>
      let w2 := log w1 DebugLevel "received response from upstream" in
      match storeConversationTurn RequestCtx req' resp w2 with
      | Panics m => Panics m
      | Returns (w3, res) =>
          let w4 := match res with
                    | Err _ => log w3 ErrorLevel "failed to store conversation"
                    | Ok _ => log w3 InfoLevel "conversation stored"
                    end in
          Returns (mkHandled (JSON StatusOK (marshal_ChatResponse resp))
                     [(RequestCtx, req', resp)] w4)
      end
  end.

(** The state of the stream writer's loop: [fullContent], [finalResp],
    the writer [w], and the surroundings. *)
Record Streaming : Type := mkStreaming {
  fullContent : string;
  finalResp : option ChatResponse;
  writer : Writer;
  during : World
}.

(** One iteration of [for scanner.Scan()] on the token [line]. *)
Definition streamLine (st : Streaming) (line : string) : Streaming :=
  if Nat.eqb (String.length line) 0 then st
  else
    match unmarshalChunk line with
    | None =>
        mkStreaming (fullContent st) (finalResp st) (writer st)
          (log (during st) WarnLevel "failed to parse chunk")
    | Some chunk =>
        let content := fullContent st +:+ Llm.Content (chunk_Message chunk) in
        let w1 := log (during st) DebugLevel "streaming chunk" in
        let wr := Flush (Write (Write (writer st) line)
                               (String LF EmptyString)) in
        let final :=
          if chunk_Done chunk then
            Some (mkChatResponse
                    (chunk_Model chunk)
                    (chunk_CreatedAt chunk)
                    (mkMessage "assistant" content [])
                    true
                    (chunk_TotalDuration chunk)
                    (chunk_LoadDuration chunk)
                    (chunk_PromptEvalCount chunk)
                    (chunk_PromptEvalDuration chunk)
                    (chunk_EvalCount chunk)
                    (chunk_EvalDuration chunk)
                    [])
          else finalResp st in
        mkStreaming content final wr w1
    end.

(** The stream writer after its loop: [scanner.Err()] is logged, and
    the turn is stored under a background context when a final
    response exists. *)
Definition finishStream (req : ChatRequest) (scanErr : option error)
    (st : Streaming) : outcome (Streaming * list RecorderCall) :=
  let w1 := match scanErr with
            | Some _ => log (during st) ErrorLevel "error reading stream"
            | None => during st
            end in
  match finalResp st with
  | None =>
      Returns (mkStreaming (fullContent st) None (writer st) w1, [])
  | Some final =>
      let w2 := log w1 DebugLevel "streaming complete" in
      match storeConversationTurn Background req final w2 with
      | Panics m => Panics m
      | Returns (w3, res) =>
          let w4 := match res with
                    | Err _ => log w3 ErrorLevel "failed to store conversation"
                    | Ok _ => log w3 InfoLevel "conversation stored"
                    end in
          Returns (mkStreaming (fullContent st) (Some final) (writer st) w4,
                   [(Background, req, final)])
      end
  end.

(** The function handed to [SetBodyStreamWriter], run over the
    upstream body; [client] is the connection it writes to. *)
Definition streamWriter (req : ChatRequest) (body : string)
    (readErr : option error) (client : Conn) (w : World)
  : outcome (Streaming * list RecorderCall) :=
  let '(tokens, scanErr) := scan body readErr in
  finishStream req scanErr
    (fold_left streamLine tokens
       (mkStreaming EmptyString None (NewWriter client) w)).

(** [func (p *Proxy) handleStreamingChat(c, req, startTime) error];
    [accepts] is the number of writes the client takes before it
    disconnects ([None]: it stays to the end). *)
Definition handleStreamingChat (req : ChatRequest) (up : Upstream)
    (accepts : option nat) (w : World) : outcome Handled :=
  match up with
  | MarshalFails _ =>
      Returns (mkHandled
        (JSON StatusInternalServerError
           (marshal_ErrorResponse (mkErrorResponse "internal error")))
        [] (log w ErrorLevel "failed to marshal request"))
  | NewRequestFails _ =>
      Returns (mkHandled
        (JSON StatusInternalServerError
           (marshal_ErrorResponse (mkErrorResponse "internal error")))
        [] (log w ErrorLevel "failed to create upstream request"))
  | DoFails _ =>
      Returns (mkHandled
        (JSON StatusBadGateway
           (marshal_ErrorResponse (mkErrorResponse "upstream request failed")))
        []
        (log (log w DebugLevel "forwarding streaming request to upstream")
             ErrorLevel "upstream request failed"))
  | Responds code body readErr =>
      let w1 := log w DebugLevel "forwarding streaming request to upstream" in
      if negb (Z.eqb code StatusOK) then
        Returns (mkHandled
          (JSON code (marshal_ErrorResponse (mkErrorResponse "upstream error")))
          [] (log w1 ErrorLevel "upstream returned error"))
      else
        match streamWriter req body readErr (mkConn [] accepts) w1 with
        | Panics m => Panics m
        | Returns (st, calls) =>
            Returns (mkHandled
              (mkReply StatusOK
                 [("Content-Type", "application/x-ndjson");
                  ("Transfer-Encoding", "chunked")]
                 (received (conn (writer st))))
              calls (during st))
        end
  end.

(** [json.Marshal] of a [*merkle.Node]. *)
Definition marshal_Node (n : Node) : option string :=
  match Marshal (Merkle.Content n) with
  | Some c =>
      Some ("{" +:+ quoted "hash" +:+ ":" +:+ appendString (Hash n)
            +:+ "," +:+ quoted "parent_hash" +:+ ":"
            +:+ (match ParentHash n with
                 | Some h => appendString h
                 | None => "null"
                 end)
            +:+ "," +:+ quoted "content" +:+ ":" +:+ c +:+ "}")
  | None => None
  end.

(** [func (p *Proxy) handleGetNode(c) error], on the route parameter
    [hash]. When [c.JSON] fails to encode the node the handler
    returns that error, which the framework's error handler turns
    into a 500 reply carrying the error text. *)
Definition handleGetNode (hash : string) (w : World) : Reply :=
  if decide (hash = EmptyString) then
    JSON StatusBadRequest
      (marshal_ErrorResponse (mkErrorResponse "hash parameter required"))
  else
    match Get RequestCtx (storer w) hash with
    | Err _ =>
        JSON StatusNotFound
          (marshal_ErrorResponse (mkErrorResponse "node not found"))
    | Ok node =>
        match marshal_Node node with
        | Some body => JSON StatusOK body
        | None =>
            mkReply StatusInternalServerError
              [("Content-Type", "text/plain; charset=utf-8")]
              ["json: unsupported value"]
        end
    end.

End WithStorer.

Arguments World S : clear implicits.
Arguments Handled S : clear implicits.
Arguments Streaming S : clear implicits.

End Proxy.

(** ** proxy: the chat route's entry point and the inspection endpoints *)

Module Endpoints.
Import Json Merkle Llm Bufio Proxy.

(** [strings.ReplaceAll(s, LF, space)] *)
Fixpoint replaceNewlines (s : string) : string :=
  match s with
  | EmptyString => EmptyString
  | String c rest =>
      String (if decide (c = LF) then " "%char else c) (replaceNewlines rest)
  end.

(** [func truncate(s string, maxLen int) string]. The slice expression
    [s[:maxLen]] is reached only when [len(s) > maxLen]; it cuts at a
    byte offset, and panics when [maxLen] is negative. *)
Definition truncate (s : string) (maxLen : Z) : outcome string :=
  let s := replaceNewlines s in
  if Z.leb (Z.of_nat (String.length s)) maxLen then Returns s
  else if Z.ltb maxLen 0 then Panics "slice bounds out of range"
  else Returns (substring 0 (Z.to_nat maxLen) s +:+ "...").

(** The traversal methods of [type Storer interface] that the
    inspection endpoints call, for a backend whose state has type [S];
    they stand beside [Storer], which holds the methods of the chat
    route. *)
Class Traverser (S : Type) : Type := {
  Roots : Context → S → result (list Node);
  Leaves : Context → S → result (list Node);
  Ancestry : Context → S → string → result (list Node)
}.

(** Modelled from the spec: the traversals of the in-memory backend,
    whose implementation is not among the sources. [roots] are the
    nodes without a parent; [leaves] the stored nodes that no stored
    node names as its parent; [ancestry] runs from the node back to its
    root, fails on an absent hash and ends where the parent is absent
    or not stored. The walk visits at most as many nodes as the store
    holds. *)
Definition mem_roots (s : gmap string Node) : list Node :=
  filter (λ n, ParentHash n = None) (mem_list s).

Definition mem_leaves (s : gmap string Node) : list Node :=
  filter (λ n, Forall (λ m, ParentHash m ≠ Some (Hash n)) (mem_list s))
         (mem_list s).

Fixpoint mem_walk (fuel : nat) (s : gmap string Node) (hash : string)
  : list Node :=
  match fuel with
  | O => []
  | Datatypes.S fuel' =>
      match s !! hash with
      | None => []
      | Some n =>
          n :: match ParentHash n with
               | None => []
               | Some p => mem_walk fuel' s p
               end
      end
  end.

Definition mem_ancestry (s : gmap string Node) (hash : string)
  : result (list Node) :=
  match s !! hash with
  | None => Err (ErrNotFound hash)
  | Some _ => Ok (mem_walk (size s) s hash)
  end.

#[global] Instance MemoryTraverser : Traverser (gmap string Node) := {
  Roots _ s := Ok (mem_roots s);
  Leaves _ s := Ok (mem_leaves s);
  Ancestry _ s hash := mem_ancestry s hash
}.

#[global] Instance UnreachableTraverser : Traverser Unreachable := {
  Roots _ _ := Err (ErrMessage "database is locked");
  Leaves _ _ := Err (ErrMessage "database is locked");
  Ancestry _ _ _ := Err (ErrMessage "database is locked")
}.

(** [type HistoryMessage struct]. [ParentHash] is a [*string];
    [Metadata] is a map that stays nil unless it gets an entry. *)
Record HistoryMessage : Type := mkHistoryMessage {
  hm_Hash : string;
  hm_ParentHash : option string;
  hm_Role : string;
  hm_Content : string;
  hm_Model : string;
  hm_Metadata : option (gmap string value)
}.

(** [type HistoryResponse struct] *)
Record HistoryResponse : Type := mkHistoryResponse {
  hist_Messages : list HistoryMessage;
  HeadHash : string;
  Depth : Z
}.

(** The type assertion [content[key].(string)]: the string and [ok]. *)
Definition stringField (content : gmap string value) (key : string)
  : option string :=
  match content !! key with
  | Some (VString s) => Some s
  | _ => None
  end.

(** The body of the loop of [buildHistory] up to the assignment
    [messages[idx] = msg]: the message made of one node. *)
Definition historyMessage (node : Node) : HistoryMessage :=
  match Merkle.Content node with
  | VMap content =>
      let role := match stringField content "role" with
                  | Some role => role
                  | None => EmptyString
                  end in
      let contentStr := match stringField content "content" with
                        | Some contentStr => contentStr
                        | None => EmptyString
                        end in
      let model := match stringField content "model" with
                   | Some model => model
                   | None => EmptyString
                   end in
      let metadata : gmap string value :=
        filter (λ kv, kv.1 ≠ "role" ∧ kv.1 ≠ "content"
                      ∧ kv.1 ≠ "model" ∧ kv.1 ≠ "type") content in
      mkHistoryMessage (Hash node) (ParentHash node) role contentStr model
        (if decide (0 < size metadata)%nat then Some metadata else None)
  | _ =>
      mkHistoryMessage (Hash node) (ParentHash node)
        EmptyString EmptyString EmptyString None
  end.

(** The loop [for i, node := range ancestry] of [buildHistory], from
    index [i] on: each message is written at [len(ancestry) - 1 - i]. *)
Fixpoint fillMessages (len i : nat) (ancestry : list Node)
    (messages : list HistoryMessage) : list HistoryMessage :=
  match ancestry with
  | [] => messages
  | node :: rest =>
      let idx := (len - 1 - i)%nat in
      fillMessages len (Datatypes.S i) rest
        (<[idx := historyMessage node]> messages)
  end.

(** The zero value of [HistoryMessage], as [make] fills the slice. *)
Definition zeroMessage : HistoryMessage :=
  mkHistoryMessage EmptyString None EmptyString EmptyString EmptyString None.

(** [json.Marshal] of a [HistoryMessage]: [parent_hash], [model] and
    [metadata] are left out when nil or empty. *)
Definition marshal_HistoryMessage (m : HistoryMessage) : option string :=
  let metadata :=
    match hm_Metadata m with
    | None => Some EmptyString
    | Some md =>
        if decide (size md = 0%nat) then Some EmptyString
        else match Marshal (VMap md) with
             | Some j => Some ("," +:+ quoted "metadata" +:+ ":" +:+ j)
             | None => None
             end
    end in
  match metadata with
  | None => None
  | Some md =>
      Some ("{" +:+ quoted "hash" +:+ ":" +:+ appendString (hm_Hash m)
            +:+ (match hm_ParentHash m with
                 | Some p => "," +:+ quoted "parent_hash" +:+ ":"
                             +:+ appendString p
                 | None => EmptyString
                 end)
            +:+ "," +:+ quoted "role" +:+ ":" +:+ appendString (hm_Role m)
            +:+ "," +:+ quoted "content" +:+ ":"
            +:+ appendString (hm_Content m)
            +:+ (if decide (hm_Model m = EmptyString) then EmptyString
                 else "," +:+ quoted "model" +:+ ":"
                      +:+ appendString (hm_Model m))
            +:+ md +:+ "}")
  end.

(** [json.Marshal] of a [HistoryResponse]; the slice of messages is
    never nil. *)
Definition marshal_HistoryResponse (h : HistoryResponse) : option string :=
  match join_elems (map marshal_HistoryMessage (hist_Messages h)) with
  | None => None
  | Some msgs =>
      Some ("{" +:+ quoted "messages" +:+ ":[" +:+ msgs +:+ "],"
            +:+ quoted "head_hash" +:+ ":" +:+ appendString (HeadHash h)
            +:+ "," +:+ quoted "depth" +:+ ":" +:+ appendInt (Depth h)
            +:+ "}")
  end.

(** What the framework's error handler sends when a handler returns
    the error of [c.JSON]. *)
Definition encodingFailure : Reply :=
  mkReply StatusInternalServerError
    [("Content-Type", "text/plain; charset=utf-8")]
    ["json: unsupported value"].

Section Chat.
Context {S : Type} `{!Storer S}.

(** [json.Unmarshal] of the standard library on the request body, a
    line of the upstream stream, and the upstream's response body:
    [None] when it returns an error. *)
Variable unmarshalRequest : string → option ChatRequest.
Variable unmarshalChunk : string → option StreamChunk.
Variable unmarshalResponse : string → option ChatResponse.

(** [func (p *Proxy) handleChat(c) error], on the request body
    [body]. *)
Definition handleChat (body : string) (up : Upstream)
    (accepts : option nat) (w : World S) : outcome (Handled S) :=
  match unmarshalRequest body with
  | None =>
      Returns (mkHandled
        (JSON StatusBadRequest
           (marshal_ErrorResponse (mkErrorResponse "invalid request body")))
        [] (log w ErrorLevel "failed to parse request"))
  | Some req =>
      let w1 := log w DebugLevel "received chat request" in
      let streaming := match Stream req with
                       | None => true
                       | Some stream => stream
                       end in
      if streaming then handleStreamingChat unmarshalChunk req up accepts w1
      else handleNonStreamingChat unmarshalResponse req up w1
  end.

End Chat.

Section Inspection.
Context {S : Type} `{!Storer S} `{!Traverser S}.

(** [func (p *Proxy) buildHistory(ctx, hash)], returning the history
    or an error. *)
Definition buildHistory (ctx : Context) (hash : string) (w : World S)
  : result HistoryResponse :=
  match Ancestry ctx (storer w) hash with
  | Err e => Err e
  | Ok ancestry =>
      let messages :=
        fillMessages (length ancestry) 0 ancestry
          (replicate (length ancestry) zeroMessage) in
      Ok (mkHistoryResponse messages hash (Z.of_nat (length messages)))
  end.

(** [func (p *Proxy) handleGetHistory(c) error], on the route parameter
    [hash]. *)
Definition handleGetHistory (hash : string) (w : World S) : Reply :=
  if decide (hash = EmptyString) then
    JSON StatusBadRequest
      (marshal_ErrorResponse (mkErrorResponse "hash parameter required"))
  else
    match buildHistory RequestCtx hash w with
    | Err _ =>
        JSON StatusNotFound
          (marshal_ErrorResponse (mkErrorResponse "node not found"))
    | Ok history =>
        match marshal_HistoryResponse history with
        | Some body => JSON StatusOK body
        | None => encodingFailure
        end
    end.

(** The loop [for _, leaf := range leaves] of [handleListHistories]: a
    leaf whose history cannot be built is logged and skipped. *)
Fixpoint collectHistories (leaves : list Node)
    (histories : list HistoryResponse) (w : World S)
  : list HistoryResponse * World S :=
  match leaves with
  | [] => (histories, w)
  | leaf :: rest =>
      match buildHistory RequestCtx (Hash leaf) w with
      | Err _ =>
          collectHistories rest histories
            (log w WarnLevel "failed to build history for leaf")
      | Ok history => collectHistories rest (histories ++ [history]) w
      end
  end.

(** [json.Marshal] of the map with the keys [count] and [histories];
    the keys of a map are written in sorted order. *)
Definition marshal_histories (histories : list HistoryResponse)
  : option string :=
  match join_elems (map marshal_HistoryResponse histories) with
  | None => None
  | Some hs =>
      Some ("{" +:+ quoted "count" +:+ ":"
            +:+ appendInt (Z.of_nat (length histories))
            +:+ "," +:+ quoted "histories" +:+ ":[" +:+ hs +:+ "]}")
  end.

(** [func (p *Proxy) handleListHistories(c) error] *)
Definition handleListHistories (w : World S) : Reply * World S :=
  match Leaves RequestCtx (storer w) with
  | Err _ =>
      (JSON StatusInternalServerError
         (marshal_ErrorResponse (mkErrorResponse "failed to get leaves")), w)
  | Ok leaves =>
      let '(histories, w') := collectHistories leaves [] w in
      (match marshal_histories histories with
       | Some body => JSON StatusOK body
       | None => encodingFailure
       end, w')
  end.

(** [func (p *Proxy) handleDAGStats(c) error] *)
Definition handleDAGStats (w : World S) : Reply :=
  match List RequestCtx (storer w) with
  | Err _ =>
      JSON StatusInternalServerError
        (marshal_ErrorResponse (mkErrorResponse "failed to list nodes"))
  | Ok nodes =>
      match Roots RequestCtx (storer w) with
      | Err _ =>
          JSON StatusInternalServerError
            (marshal_ErrorResponse (mkErrorResponse "failed to get roots"))
      | Ok roots =>
          match Leaves RequestCtx (storer w) with
          | Err _ =>
              JSON StatusInternalServerError
                (marshal_ErrorResponse
                   (mkErrorResponse "failed to get leaves"))
          | Ok leaves =>
              let stats : gmap string value :=
                {[ "total_nodes" := VInt (Z.of_nat (length nodes));
                   "root_count" := VInt (Z.of_nat (length roots));
                   "leaf_count" := VInt (Z.of_nat (length leaves)) ]} in
              match Marshal (VMap stats) with
              | Some body => JSON StatusOK body
              | None => encodingFailure
              end
          end
      end
  end.

End Inspection.

End Endpoints.

(** ** cmd/tapes: the merge and push commands *)

Module Commands.
Import Json Merkle Bufio.

(** A Go [int] on a 64-bit platform: the value an arithmetic result
    wraps around to. *)
Definition wrap64 (z : Z) : Z := (z + 2 ^ 63) mod 2 ^ 64 - 2 ^ 63.

(** [sqlite.Driver], for a database whose state has type [D]: of its
    methods the commands call [Put], which reports whether the node was
    new, and [List] (whose outcome is an input of the commands
    below). *)
Class Driver (D : Type) : Type := {
  driverPut : Context → D → Node → D * result bool
}.

(** Modelled from the spec: the driver's implementation is not among
    the sources; the hash-keyed map of [mem_put] stands for a database
    in the instances of the properties. *)
#[global] Instance MemoryDriver : Driver (gmap string Node) := {
  driverPut _ s n := mem_put s (Some n)
}.

(** A database that cannot be written. *)
#[global] Instance UnreachableDriver : Driver Unreachable := {
  driverPut _ s _ := (s, Err (ErrMessage "database is locked"))
}.

(** A source database named on the command line: its path, and what
    [sqlite.NewDriver] and then [source.List] return for it. *)
Inductive Opened : Type :=
| OpenFails (e : error)
| ListFails (e : error)
| Lists (nodes : list Node).

Record Source : Type := mkSource {
  srcPath : string;
  opened : Opened
}.

(** The result of a command: what it wrote to the standard output, and
    the error it returned. *)
Record Ran : Type := mkRan {
  stdout : list string;
  returned : option error
}.

Module Mergecmder.

Section Merge.
Context {D : Type} `{!Driver D}.

(** The loop [for _, n := range nodes] of the merge command. *)
Fixpoint putNodes (ctx : Context) (target : D) (nodes : list Node)
    (srcNew srcDuped : Z) : D * result (Z * Z) :=
  match nodes with
  | [] => (target, Ok (srcNew, srcDuped))
  | n :: rest =>
      match driverPut ctx target n with
      | (target', Err e) =>
          (target', Err (ErrWrap ("could not put node " +:+ Hash n) e))
      | (target', Ok isNew) =>
          if isNew
          then putNodes ctx target' rest (wrap64 (srcNew + 1)) srcDuped
          else putNodes ctx target' rest srcNew (wrap64 (srcDuped + 1))
      end
  end.

(** The loop [for _, srcPath := range sources]. *)
Fixpoint mergeSources (ctx : Context) (target : D) (sources : list Source)
    (totalNew totalDuped : Z) (out : list string)
  : D * list string * result (Z * Z) :=
  match sources with
  | [] => (target, out, Ok (totalNew, totalDuped))
  | src :: rest =>
      match opened src with
      | OpenFails e =>
          (target, out,
           Err (ErrWrap ("could not open source database " +:+ srcPath src) e))
      | ListFails e =>
          (target, out,
           Err (ErrWrap ("could not list nodes from " +:+ srcPath src) e))
      | Lists nodes =>
          match putNodes ctx target nodes 0 0 with
          | (target', Err e) => (target', out, Err e)
          | (target', Ok (srcNew, srcDuped)) =>
              mergeSources ctx target' rest
                (wrap64 (totalNew + srcNew)) (wrap64 (totalDuped + srcDuped))
                (out ++ ["  " +:+ srcPath src +:+ ": " +:+ appendInt srcNew
                         +:+ " new, " +:+ appendInt srcDuped
                         +:+ " already existed" +:+ String LF EmptyString])
          end
      end
  end.

(** [func (c *mergeCommander) run(ctx, cmd, sources) error] of the
    merge command. [resolved] is what [sqlitepath.ResolveSQLitePath]
    returns, [connect] what [sqlite.NewDriver] returns for the target
    path; the result carries the target database when it was opened. *)
Definition run (ctx : Context) (resolved : result string)
    (connect : string → result D) (sources : list Source)
  : option D * Ran :=
  match resolved with
  | Err e =>
      (None, mkRan [] (Some (ErrWrap "could not resolve target database" e)))
  | Ok targetPath =>
      match connect targetPath with
      | Err e =>
          (None,
           mkRan [] (Some (ErrWrap ("could not open target database "
                                     +:+ targetPath) e)))
      | Ok target =>
          match mergeSources ctx target sources 0 0 [] with
          | (target', out, Err e) => (Some target', mkRan out (Some e))
          | (target', out, Ok (totalNew, totalDuped)) =>
              (Some target',
               mkRan (out ++ ["Merged " +:+ appendInt totalNew
                              +:+ " new nodes from "
                              +:+ appendInt (Z.of_nat (length sources))
                              +:+ " sources (" +:+ appendInt totalDuped
                              +:+ " already existed) into " +:+ targetPath
                              +:+ String LF EmptyString])
                     None)
          end
      end
  end.

End Merge.

End Mergecmder.

Module Pushcmder.

(** [type pushResponse struct] *)
Record pushResponse : Type := mkPushResponse {
  New : Z;
  Duplicate : Z;
  Errors : Z
}.

(** What happens to one batch on its way to the server: the outcomes
    of [json.Marshal(nodes)], of [http.Post], the status and body of a
    response other than 200, and the outcome of decoding a 200
    response. *)
Inductive Posted : Type :=
| EncodeFails (e : error)
| PostFails (e : error)
| Refused (StatusCode : Z) (respBody : string)
| DecodeFails (e : error)
| Accepted (resp : pushResponse).

(** [strings.TrimRight(s, "/")] *)
Fixpoint trimSlashes (s : string) : string :=
  match s with
  | EmptyString => EmptyString
  | String c rest =>
      match trimSlashes rest with
      | EmptyString =>
          if decide (c = "/"%char) then EmptyString
          else String c EmptyString
      | kept => String c kept
      end
  end.

Section Push.
(** The remote server with its state: what a POST of a batch to a URL
    leads to. *)
Context {R : Type}.
Variable post : R → string → list Node → R * Posted.

(** [func (c *pushCommander) postBatch(serverURL, nodes)] *)
Definition postBatch (serverURL : string) (nodes : list Node) (r : R)
  : R * result pushResponse :=
  match post r (serverURL +:+ "/dag/nodes") nodes with
  | (r', EncodeFails e) => (r', Err (ErrWrap "could not marshal nodes" e))
  | (r', PostFails e) => (r', Err (ErrWrap "HTTP request failed" e))
  | (r', Refused code respBody) =>
      (r', Err (ErrMessage ("server returned " +:+ appendInt code +:+ ": "
                             +:+ respBody)))
  | (r', DecodeFails e) => (r', Err (ErrWrap "could not decode response" e))
  | (r', Accepted resp) => (r', Ok resp)
  end.

(** The state of the loop of the push command, with the batches handed
    to [postBatch] so far. *)
Record Pushing : Type := mkPushing {
  remote : R;
  sent : list (list Node);
  totalNew : Z;
  totalDup : Z;
  totalErr : Z
}.

(** The loop [for i := 0; i < len(nodes); i += c.batchSize], from [i]
    on, for at most [fuel] iterations: [None] when it is still running
    after them. The slice expression [nodes[i:end]] panics when [end]
    lies below [i]. *)
Fixpoint pushBatches (fuel : nat) (serverURL : string) (nodes : list Node)
    (batchSize : Z) (i : Z) (st : Pushing)
  : option (outcome (Pushing * option error)) :=
  match fuel with
  | O => None
  | Datatypes.S fuel' =>
      let len := Z.of_nat (length nodes) in
      if Z.ltb i len then
        let end0 := wrap64 (i + batchSize) in
        let end1 := if Z.ltb len end0 then len else end0 in
        if Z.ltb i 0 || Z.ltb end1 i then
          Some (Panics "slice bounds out of range")
        else
          let batch := take (Z.to_nat (end1 - i)) (drop (Z.to_nat i) nodes) in
          match postBatch serverURL batch (remote st) with
          | (r', Err e) =>
              Some (Returns
                (mkPushing r' (sent st ++ [batch])
                   (totalNew st) (totalDup st) (totalErr st),
                 Some (ErrWrap ("push failed on batch " +:+ appendInt i
                                 +:+ "-" +:+ appendInt (wrap64 (end1 - 1)))
                         e)))
          | (r', Ok resp) =>
              pushBatches fuel' serverURL nodes batchSize
                (wrap64 (i + batchSize))
                (mkPushing r' (sent st ++ [batch])
                   (wrap64 (totalNew st + New resp))
                   (wrap64 (totalDup st + Duplicate resp))
                   (wrap64 (totalErr st + Errors resp)))
          end
      else Some (Returns (st, None))
  end.

(** [func (c *pushCommander) run(ctx, cmd, serverURL) error] of the
    push command. [resolved] is what [sqlitepath.ResolveSQLitePath]
    returns, [listed] what opening the local database and listing its
    nodes return. *)
Definition run (fuel : nat) (serverURL : string) (resolved : result string)
    (listed : Opened) (batchSize : Z) (r : R)
  : option (outcome (Pushing * Ran)) :=
  let serverURL := trimSlashes serverURL in
  let idle := mkPushing r [] 0 0 0 in
  match resolved with
  | Err e =>
      Some (Returns
        (idle, mkRan [] (Some (ErrWrap "could not resolve local database" e))))
  | Ok dbPath =>
      match listed with
      | OpenFails e =>
          Some (Returns
            (idle,
             mkRan [] (Some (ErrWrap ("could not open local database "
                                       +:+ dbPath) e))))
      | ListFails e =>
          Some (Returns
            (idle, mkRan [] (Some (ErrWrap "could not list local nodes" e))))
      | Lists nodes =>
          if Nat.eqb (length nodes) 0 then
            Some (Returns
              (idle,
               mkRan ["No local nodes to push." +:+ String LF EmptyString]
                     None))
          else
            let out :=
              ["Pushing " +:+ appendInt (Z.of_nat (length nodes))
               +:+ " nodes from " +:+ dbPath +:+ " to " +:+ serverURL
               +:+ String LF EmptyString] in
            match pushBatches fuel serverURL nodes batchSize 0 idle with
            | None => None
            | Some (Panics msg) => Some (Panics msg)
            | Some (Returns (st, Some e)) =>
                Some (Returns (st, mkRan out (Some e)))
            | Some (Returns (st, None)) =>
                Some (Returns
                  (st,
                   mkRan (out ++ ["Pushed " +:+ appendInt (totalNew st)
                                  +:+ " new nodes ("
                                  +:+ appendInt (totalDup st)
                                  +:+ " already existed, "
                                  +:+ appendInt (totalErr st)
                                  +:+ " errors)" +:+ String LF EmptyString])
                         None))
            end
      end
  end.

End Push.

Arguments Pushing R : clear implicits.

End Pushcmder.

End Commands.

(** * Specification vocabulary *)

Import Json Merkle Llm Bufio Proxy.

(** A byte value. *)
Definition is_byte (v : Z) : Prop := 0 <= v < 256.

Section RecorderVocabulary.
Context {S : Type} `{!Storer S}.

(** Successive [Put]s of the nodes, stopping at the first error. *)
Fixpoint putAll (ctx : Context) (s : S) (nodes : list Node)
  : S * option error :=
  match nodes with
  | [] => (s, None)
  | n :: rest =>
      match Put ctx s (Some n) with
      | (s', None) => putAll ctx s' rest
      | (s', Some e) => (s', Some e)
      end
  end.

(** The message nodes of a turn, oldest first: each is the node of its
    message's content over its predecessor. *)
Fixpoint messageNodes (model : string) (msgs : list Message)
    (parent : option Node) : list Node :=
  match msgs with
  | [] => []
  | msg :: rest =>
      match NewNode (messageContent model msg) parent with
      | Returns n => n :: messageNodes model rest (Some n)
      | Panics _ => []
      end
  end.

(** The nodes of a turn: the message nodes, then the response node over
    the last of them. *)
Definition turnNodes (req : ChatRequest) (resp : ChatResponse) : list Node :=
  let nodes := messageNodes (Model req) (Messages req) None in
  match NewNode (responseContent resp) (last nodes) with
  | Returns head => nodes ++ [head]
  | Panics _ => nodes
  end.

End RecorderVocabulary.

Section MemoryVocabulary.

(** The [Put] calls of all callers in the order the store's lock lets
    them in; a call may carry a nil node. *)
Definition mem_run (ops : list (option Node)) (s : gmap string Node)
  : gmap string Node :=
  fold_left (λ s o, (mem_put s o).1) ops s.

(** Every record sits under its own hash. *)
Definition keyed (s : gmap string Node) : Prop :=
  ∀ k m, s !! k = Some m → Hash m = k.

End MemoryVocabulary.

Section StreamVocabulary.
Variable unmarshalChunk : string → option StreamChunk.

(** What the loop gets out of a token: nothing for an empty line and for
    a line that does not parse, the chunk otherwise. *)
Definition chunkOf (line : string) : option StreamChunk :=
  if Nat.eqb (String.length line) 0 then None else unmarshalChunk line.

(** The tokens that parse, each followed by a newline. *)
Definition framed (tokens : list string) : list string :=
  map (λ l, l +:+ String LF EmptyString)
      (filter (λ l, is_Some (chunkOf l)) tokens).

(** A chunk with [done] set was parsed among the tokens. *)
Definition doneSeen (tokens : list string) : Prop :=
  ∃ line chunk, line ∈ tokens ∧ chunkOf line = Some chunk
                ∧ chunk_Done chunk = true.

(** The bytes of a sequence of writes. *)
Definition joined (chunks : list string) : string :=
  foldr String.append EmptyString chunks.

(** [c] occurs in [s]. *)
Fixpoint occurs (c : ascii) (s : string) : bool :=
  match s with
  | EmptyString => false
  | String c' rest => if decide (c' = c) then true else occurs c rest
  end.


(** What reaches the client of a sequence of flushed chunks: all of
    them, or the first [k] when it disconnects after [k] writes. *)
Definition delivered (accepts : option nat) (chunks : list string)
  : list string :=
  match accepts with
  | None => chunks
  | Some k => take k chunks
  end.

(** The response the loop materializes from a chunk with [done] set. *)
Definition materialized (content : string) (chunk : StreamChunk)
  : ChatResponse :=
  mkChatResponse (chunk_Model chunk) (chunk_CreatedAt chunk)
    (mkMessage "assistant" content []) true
    (chunk_TotalDuration chunk) (chunk_LoadDuration chunk)
    (chunk_PromptEvalCount chunk) (chunk_PromptEvalDuration chunk)
    (chunk_EvalCount chunk) (chunk_EvalDuration chunk) [].

End StreamVocabulary.

Section StreamStateVocabulary.
Context {S : Type}.
Variable unm : string → option StreamChunk.

(** The loop's state when the scanner has ended. *)
Definition scanned (body : string) (readErr : option error)
    (accepts : option nat) (w : World S) : Streaming S :=
  fold_left (streamLine unm) (scan body readErr).1
    (mkStreaming EmptyString None (NewWriter (mkConn [] accepts))
       (log w DebugLevel "forwarding streaming request to upstream")).

End StreamStateVocabulary.

(** ** Vocabulary of the further properties *)

(** The part of a message that enters its node. *)
Definition spoken (msg : Message) : string * string :=
  (Role msg, Llm.Content msg).

Section TextVocabulary.
Variable unmarshalChunk : string → option StreamChunk.

(** The text of the chunks parsed from the tokens, in order. *)
Definition heard (tokens : list string) : string :=
  joined (map (λ chunk, Llm.Content (chunk_Message chunk))
              (omap (chunkOf unmarshalChunk) tokens)).

End TextVocabulary.

Section HistoryVocabulary.
Import Endpoints.
Context {S : Type} `{!Storer S} `{!Traverser S}.

(** What a history message tells of its node beyond the hashes. *)
Definition told (m : HistoryMessage)
  : string * string * string * option (gmap string value) :=
  (hm_Role m, hm_Content m, hm_Model m, hm_Metadata m).

(** The metrics a response node carries. *)
Definition metricsOf (resp : ChatResponse) : gmap string value :=
  {[ "metrics" := VMap {[
       "total_duration_ns" := VInt (TotalDuration resp);
       "prompt_eval_count" := VInt (PromptEvalCount resp);
       "prompt_eval_duration_ns" := VInt (PromptEvalDuration resp);
       "eval_count" := VInt (EvalCount resp);
       "eval_duration_ns" := VInt (EvalDuration resp) ]} ]}.

(** The history of a leaf, when it can be built. *)
Definition historyOf (w : World S) (leaf : Node) : option HistoryResponse :=
  match buildHistory RequestCtx (Hash leaf) w with
  | Ok history => Some history
  | Err _ => None
  end.

End HistoryVocabulary.


Section CommandVocabulary.
Import Commands.

(** The nodes a source lists; none when it cannot be opened or
    listed. *)
Definition nodesOf (src : Source) : list Node :=
  match opened src with
  | Lists nodes => nodes
  | _ => []
  end.

(** The nodes of the sources, in the order of the command line. *)
Definition allNodes (sources : list Source) : list Node :=
  concat (nodesOf <$> sources).

(** The line the merge command prints for a source, given its counts
    of new and of already existing nodes. *)
Definition sourceLine (src : Source) (counts : Z * Z) : string :=
  "  " +:+ srcPath src +:+ ": " +:+ appendInt counts.1 +:+ " new, "
  +:+ appendInt counts.2 +:+ " already existed" +:+ String LF EmptyString.

(** The last line of a merge. *)
Definition summaryLine (new sources duped : Z) (targetPath : string)
  : string :=
  "Merged " +:+ appendInt new +:+ " new nodes from " +:+ appendInt sources
  +:+ " sources (" +:+ appendInt duped +:+ " already existed) into "
  +:+ targetPath +:+ String LF EmptyString.

Definition sumZ (l : list Z) : Z := foldr Z.add 0 l.

End CommandVocabulary.

(** ** Sample traffic *)

Module Samples.
Import Json Merkle Llm Bufio Proxy.

Definition hello : Message := mkMessage "user" "Hello" [].

Definition request : ChatRequest :=
  mkChatRequest "llama2" [hello] None EmptyString EmptyString.

Definition line1 : string :=
  "{" +:+ quoted "model" +:+ ":" +:+ quoted "llama2" +:+ ","
  +:+ quoted "message" +:+ ":{" +:+ quoted "role" +:+ ":"
  +:+ quoted "assistant" +:+ "," +:+ quoted "content" +:+ ":"
  +:+ quoted "Hi" +:+ "}," +:+ quoted "done" +:+ ":false}".

Definition line2 : string :=
  "{" +:+ quoted "model" +:+ ":" +:+ quoted "llama2" +:+ ","
  +:+ quoted "message" +:+ ":{" +:+ quoted "role" +:+ ":"
  +:+ quoted "system" +:+ "," +:+ quoted "content" +:+ ":"
  +:+ quoted " there" +:+ "}," +:+ quoted "done" +:+ ":true,"
  +:+ quoted "eval_count" +:+ ":2}".

Definition chunk1 : StreamChunk :=
  mkStreamChunk "llama2" "0001-01-01T00:00:00Z"
    (mkMessage "assistant" "Hi" []) false 0 0 0 0 0 0.

Definition chunk2 : StreamChunk :=
  mkStreamChunk "llama2" "0001-01-01T00:00:00Z"
    (mkMessage "system" " there" []) true 0 0 0 0 2 0.

(** A decoder that knows the two sample lines and rejects every other
    line, as [json.Unmarshal] rejects malformed input. *)
Definition decodeChunk (line : string) : option StreamChunk :=
  if decide (line = line1) then Some chunk1
  else if decide (line = line2) then Some chunk2
  else None.

Definition reply_ok : ChatResponse :=
  mkChatResponse "llama2" "2024-01-01T00:00:00Z"
    (mkMessage "assistant" "Hi there" []) true 5 0 1 2 2 3 [].

Definition reply_body : string := marshal_ChatResponse reply_ok.

Definition decodeResponse (body : string) : option ChatResponse :=
  if decide (body = reply_body) then Some reply_ok else None.

Definition nl : string := String LF EmptyString.
Definition crnl : string := String CR (String LF EmptyString).

(** An upstream body with a CRLF-terminated chunk, an empty line, a
    line that is not JSON, and a last chunk with no newline after it. *)
Definition ragged_body : string :=
  line1 +:+ crnl +:+ nl +:+ "garbage" +:+ nl +:+ line2.


Definition conversation : ChatRequest :=
  mkChatRequest "llama2"
    [hello; mkMessage "assistant" "Hi there" [];
     mkMessage "user" "How are you?" []]
    (Some false) EmptyString EmptyString.

Definition empty_memory : World (gmap string Node) :=
  mkWorld NewMemoryStorer [].

Definition offline : World Unreachable := mkWorld unreachable [].

End Samples.

(** ** Further sample data *)

Module Cases.
Import Json Merkle Llm Bufio Proxy Endpoints Commands Samples.

(** The sample request sent again with an image, an explicit stream
    flag, a format and a keep-alive. *)
Definition request_again : ChatRequest :=
  mkChatRequest "llama2" [mkMessage "user" "Hello" ["aGVsbG8="]]
    (Some true) "json" "5m".

(** The sample reply with another creation time, load duration, done
    flag and context. *)
Definition reply_again : ChatResponse :=
  mkChatResponse "llama2" "2024-06-01T12:00:00Z"
    (mkMessage "assistant" "Hi there" ["aGk="]) false 5 9 1 2 2 3 [1; 2].

(** An upstream body that goes on after the finished chunk. *)
Definition trailing_body : string :=
  line1 +:+ nl +:+ line2 +:+ nl +:+ line1 +:+ nl.

(** The in-memory store after the sample conversation was recorded,
    and the hash of the head of that turn. *)
Definition recorded_memory : World (gmap string Node) :=
  mkWorld (putAll Background NewMemoryStorer
             (turnNodes conversation reply_ok)).1 [].

Definition conversation_head : string :=
  from_option Hash EmptyString (last (turnNodes conversation reply_ok)).

(** Three nodes, and two source databases that share one of them. *)
Definition node_a : Node := mkNode "aa" None (VString "a").
Definition node_b : Node := mkNode "bb" (Some "aa") (VString "b").
Definition node_c : Node := mkNode "cc" (Some "bb") (VString "c").

Definition alice : Source := mkSource "alice.db" (Lists [node_a; node_b]).
Definition bob : Source := mkSource "bob.db" (Lists [node_b; node_c]).
Definition lost : Source :=
  mkSource "lost.db" (OpenFails (ErrMessage "unable to open database file")).

(** A fresh in-memory target for every path. *)
Definition fresh (path : string) : result (gmap string Node) :=
  Ok NewMemoryStorer.

(** A server that accepts every batch and reports all its nodes as
    new; its state is the number of requests it has served. *)
Definition accepting (served : nat) (url : string) (batch : list Node)
  : nat * Pushcmder.Posted :=
  (Datatypes.S served,
   Pushcmder.Accepted
     (Pushcmder.mkPushResponse (Z.of_nat (length batch)) 0 0)).

End Cases.

(** * Properties *)

(** ** The hasher *)

Section Hasher.

Lemma EncodeToString_length (src : list Z) :
  String.length (Hex.EncodeToString src) = (2 * length src)%nat.
Proof.
  induction src as [|v rest IH]; simpl; [reflexivity|].
  rewrite IH. lia.
Qed.

Lemma hexdigit_lower (i : Z) :
  0 <= i < 16 → Hex.is_lower_hex (Hex.hexdigit i) = true.
Proof.
  intros Hi.
  assert (Hcases : i = 0 ∨ i = 1 ∨ i = 2 ∨ i = 3 ∨ i = 4 ∨ i = 5 ∨ i = 6
                   ∨ i = 7 ∨ i = 8 ∨ i = 9 ∨ i = 10 ∨ i = 11 ∨ i = 12
                   ∨ i = 13 ∨ i = 14 ∨ i = 15) by lia.
  repeat (destruct Hcases as [-> | Hcases]; [reflexivity|]).
  subst i. reflexivity.
Qed.

Lemma high_nibble_range (v : Z) : is_byte v → 0 <= Z.shiftr v 4 < 16.
Proof.
  intros [Hlo Hhi]. rewrite Z.shiftr_div_pow2 by lia.
  change (2 ^ 4) with 16. split.
  - apply Z.div_pos; lia.
  - apply Z.div_lt_upper_bound; lia.
Qed.

Lemma low_nibble_range (v : Z) : 0 <= Z.land v 15 < 16.
Proof.
  change 15 with (Z.ones 4). rewrite Z.land_ones by lia.
  apply Z.mod_pos_bound. lia.
Qed.

Lemma EncodeToString_lower (src : list Z) :
  Forall is_byte src → Hex.all_lower_hex (Hex.EncodeToString src) = true.
Proof.
  induction 1 as [|v rest Hv _ IH]; simpl; [reflexivity|].
  rewrite (hexdigit_lower _ (high_nibble_range v Hv)).
  rewrite (hexdigit_lower _ (low_nibble_range v)).
  exact IH.
Qed.

Lemma low_byte_range (x : Z) : is_byte (Z.land x 255).
Proof.
  unfold is_byte. change 255 with (Z.ones 8).
  rewrite Z.land_ones by lia. apply Z.mod_pos_bound. lia.
Qed.

Lemma be32_bytes (x : Z) : Forall is_byte (Sha256.be32 x).
Proof. unfold Sha256.be32. simpl. repeat constructor; apply low_byte_range. Qed.

Lemma Sum256_length (data : list Z) : length (Sha256.Sum256 data) = 32%nat.
Proof. unfold Sha256.Sum256. reflexivity. Qed.

Lemma Sum256_bytes (data : list Z) : Forall is_byte (Sha256.Sum256 data).
Proof.
  unfold Sha256.Sum256. cbv zeta.
  repeat (apply Forall_app; split); apply be32_bytes.
Qed.

(** The digests of the standard test messages. *)
Example Sum256_abc :
  Hex.EncodeToString (Sha256.Sum256 (bytes_of "abc"))
  = "ba7816bf8f01cfea414140de5dae2223b00361a396177a9cb410ff61f20015ad".
Proof. vm_compute. reflexivity. Qed.

Example Sum256_empty :
  Hex.EncodeToString (Sha256.Sum256 [])
  = "e3b0c44298fc1c149afbf4c8996fb92427ae41e4649b934ca495991b7852b855".
Proof. vm_compute. reflexivity. Qed.

Example Sum256_two_blocks :
  Hex.EncodeToString
    (Sha256.Sum256
       (bytes_of "abcdbcdecdefdefgefghfghighijhijkijkljklmklmnlmnomnopnopq"))
  = "248d6a61d20638b8e5c026930c3e6039a33ce45964ff2167f6ecedd419db06c1".
Proof. vm_compute. reflexivity. Qed.

(** What [computeHash] returns is the lowercase hex of a SHA-256 digest. *)
Lemma digest_hex_shape (data : string) :
  let h := Hex.EncodeToString (Sha256.Sum256 (bytes_of data)) in
  String.length h = 64%nat ∧ Hex.all_lower_hex h = true.
Proof.
  cbv zeta. split.
  - rewrite EncodeToString_length, Sum256_length. reflexivity.
  - apply EncodeToString_lower, Sum256_bytes.
Qed.

End Hasher.

Section JsonFacts.

Lemma join_elems_is_Some (es : list (option string)) :
  Forall is_Some es → is_Some (join_elems es).
Proof.
  induction 1 as [|e rest [x ->] Hrest IH].
  - eexists; reflexivity.
  - destruct rest as [|e' rest'].
    + eexists; reflexivity.
    + destruct IH as [xs Hxs].
      change (join_elems (Some x :: e' :: rest'))
        with (match join_elems (e' :: rest') with
              | Some xs => Some (x +:+ "," +:+ xs)
              | None => None
              end).
      rewrite Hxs. eexists; reflexivity.
Qed.

Lemma Marshal_VMap (m : gmap string value) :
  Marshal (VMap m)
  = match join_elems
            (map member (merge_sort key_le_opt (map_to_list (Marshal <$> m)))) with
    | Some body => Some ("{" +:+ body +:+ "}")
    | None => None
    end.
Proof. reflexivity. Qed.

(** A map whose values are all JSON-expressible is JSON-expressible. *)
Lemma Marshal_map_expressible (m : gmap string value) :
  map_Forall (λ _ v, is_Some (Marshal v)) m → is_Some (Marshal (VMap m)).
Proof.
  intros Hm. rewrite Marshal_VMap.
  assert (Hall : Forall is_Some
            (map member (merge_sort key_le_opt (map_to_list (Marshal <$> m))))).
  { apply Forall_map.
    rewrite (merge_sort_Permutation key_le_opt).
    apply Forall_forall. intros [k o] Hin.
    apply elem_of_map_to_list in Hin.
    apply lookup_fmap_Some in Hin as (v & <- & Hv).
    destruct (Hm k v Hv) as [e He].
    unfold member. cbn [snd fst]. rewrite He. eexists; reflexivity. }
  destruct (join_elems_is_Some _ Hall) as [body ->].
  eexists; reflexivity.
Qed.

End JsonFacts.

Section NodeHash.

(** The parent key that enters the hash: the parent's hash, or the empty
    string for a root. *)
Lemma computeHash_unfold (n : Node) (data : string) :
  marshal_input (mkInput (Merkle.Content n) (from_option id EmptyString (ParentHash n)))
    = Some data →
  computeHash n
    = Returns (Hex.EncodeToString (Sha256.Sum256 (bytes_of data))).
Proof.
  unfold computeHash. destruct (ParentHash n); simpl; intros ->; reflexivity.
Qed.

Lemma NewNode_unfold (content : value) (parent : option Node) (data : string) :
  marshal_input (mkInput content (from_option Hash EmptyString parent)) = Some data →
  NewNode content parent
    = Returns (mkNode (Hex.EncodeToString (Sha256.Sum256 (bytes_of data)))
                 (Hash <$> parent) content).
Proof.
  intros Hdata. unfold NewNode.
  rewrite (computeHash_unfold _ data).
  - destruct parent; reflexivity.
  - destruct parent; exact Hdata.
Qed.

Lemma marshal_input_expressible (content : value) (parentHash : string) :
  is_Some (Marshal content) →
  is_Some (marshal_input (mkInput content parentHash)).
Proof.
  intros [c Hc]. unfold marshal_input. simpl. rewrite Hc. eauto.
Qed.

(** C3: for every JSON-expressible content and every parent, [NewNode]
    returns a node whose hash is the 64-character lowercase hexadecimal
    SHA-256 digest of the encoded pair (content, parent hash); two calls
    with equal content and equal parent hash yield equal hashes, even
    when the two parent nodes differ otherwise. *)
Theorem NewNode_hash_hex_and_determined
    (content : value) (parent parent' : option Node) :
  is_Some (Marshal content) →
  from_option Hash EmptyString parent = from_option Hash EmptyString parent' →
  ∃ n n' data,
    NewNode content parent = Returns n
    ∧ NewNode content parent' = Returns n'
    ∧ marshal_input (mkInput content (from_option Hash EmptyString parent)) = Some data
    ∧ Hash n = Hex.EncodeToString (Sha256.Sum256 (bytes_of data))
    ∧ String.length (Hash n) = 64%nat
    ∧ Hex.all_lower_hex (Hash n) = true
    ∧ Hash n' = Hash n.
Proof.
  intros Hexp Hparent.
  destruct (marshal_input_expressible content (from_option Hash EmptyString parent) Hexp)
    as [data Hdata].
  pose proof (NewNode_unfold content parent data Hdata) as Hn.
  rewrite Hparent in Hdata.
  pose proof (NewNode_unfold content parent' data Hdata) as Hn'.
  rewrite <- Hparent in Hdata.
  destruct (digest_hex_shape data) as [Hlen Hhex].
  rewrite Hn, Hn'. eexists _, _, data.
  split; [reflexivity|]. split; [reflexivity|]. split; [exact Hdata|].
  cbn [Hash]. auto.
Qed.

(** The node the test suite builds with [NewNode("test", nil)]: its hash
    is the SHA-256 of the object with content ["test"] and an empty
    parent. *)
Example NewNode_test_vector :
  NewNode (VString "test") None
  = Returns (mkNode
      "82afaf30b6989dcf12357806add2d2576fb1a3999c2a05482417d4fc94f8f2d4"
      None (VString "test")).
Proof. vm_compute. reflexivity. Qed.

End NodeHash.

Arguments Sha256.Sum256 : simpl never.
Arguments Hex.EncodeToString : simpl never.
Arguments computeHash : simpl never.
Arguments NewNode : simpl never.

(** ** The conversation recorder *)

Section Recorder.
Context {S : Type} `{!Storer S}.

(** The contents the recorder builds are JSON-expressible. *)
Lemma messageContent_expressible (model : string) (msg : Message) :
  is_Some (Marshal (messageContent model msg)).
Proof.
  apply Marshal_map_expressible.
  repeat (apply map_Forall_insert_2; [eexists; reflexivity|]).
  apply map_Forall_empty.
Qed.

Lemma responseContent_expressible (resp : ChatResponse) :
  is_Some (Marshal (responseContent resp)).
Proof.
  apply Marshal_map_expressible.
  repeat (apply map_Forall_insert_2; [eexists; reflexivity|]).
  apply map_Forall_empty.
Qed.

Lemma NewNode_returns (content : value) (parent : option Node) :
  is_Some (Marshal content) →
  ∃ n, NewNode content parent = Returns n
       ∧ Merkle.Content n = content
       ∧ ParentHash n = Hash <$> parent
       ∧ computeHash n = Returns (Hash n).
Proof.
  intros Hexp.
  destruct (marshal_input_expressible content (from_option Hash EmptyString parent) Hexp)
    as [data Hdata].
  rewrite (NewNode_unfold content parent data Hdata).
  eexists. split; [reflexivity|]. cbn [Merkle.Content ParentHash Hash].
  split; [reflexivity|]. split; [reflexivity|].
  apply computeHash_unfold. cbn [Merkle.Content ParentHash].
  destruct parent; exact Hdata.
Qed.

Lemma messageNodes_cons (model : string) (msg : Message)
    (rest : list Message) (parent : option Node) :
  ∃ n, NewNode (messageContent model msg) parent = Returns n
       ∧ messageNodes model (msg :: rest) parent
         = n :: messageNodes model rest (Some n)
       ∧ Merkle.Content n = messageContent model msg
       ∧ ParentHash n = Hash <$> parent
       ∧ computeHash n = Returns (Hash n).
Proof.
  destruct (NewNode_returns (messageContent model msg) parent
              (messageContent_expressible model msg))
    as (n & Hn & Hc & Hp & Hh).
  exists n. cbn [messageNodes]. rewrite Hn. auto.
Qed.

Lemma messageNodes_length (model : string) (msgs : list Message)
    (parent : option Node) :
  length (messageNodes model msgs parent) = length msgs.
Proof.
  revert parent. induction msgs as [|msg rest IH]; intros parent.
  - reflexivity.
  - destruct (messageNodes_cons model msg rest parent) as (n & _ & -> & _).
    cbn [length]. rewrite IH. reflexivity.
Qed.

(** Node [i] carries message [i] and hangs below node [i-1]. *)
Lemma messageNodes_lookup (model : string) (msgs : list Message)
    (parent : option Node) (i : nat) (msg : Message) :
  msgs !! i = Some msg →
  ∃ n, messageNodes model msgs parent !! i = Some n
       ∧ Merkle.Content n = messageContent model msg
       ∧ ParentHash n
         = Hash <$> (match i with
                     | O => parent
                     | Datatypes.S j => messageNodes model msgs parent !! j
                     end)
       ∧ computeHash n = Returns (Hash n).
Proof.
  revert parent i. induction msgs as [|m rest IH]; intros parent i Hi.
  - destruct i; discriminate.
  - destruct (messageNodes_cons model m rest parent)
      as (n0 & _ & -> & Hc & Hp & Hh).
    destruct i as [|j].
    + injection Hi as <-. exists n0. auto.
    + destruct (IH (Some n0) j Hi) as (n & Hn & Hcn & Hpn & Hhn).
      exists n. split; [exact Hn|]. split; [exact Hcn|].
      split; [|exact Hhn].
      rewrite Hpn. destruct j; reflexivity.
Qed.

(** The loop puts the message nodes in order and hands on the last. *)
Lemma storeMessages_puts (ctx : Context) (model : string)
    (msgs : list Message) (parent : option Node) (w : World S) :
  (putAll ctx (storer w) (messageNodes model msgs parent)).2 = None →
  ∃ w', storeMessages ctx model msgs parent w
        = Returns (w', Ok (match last (messageNodes model msgs parent) with
                           | Some n => Some n
                           | None => parent
                           end))
        ∧ storer w'
          = (putAll ctx (storer w) (messageNodes model msgs parent)).1.
Proof.
  revert parent w. induction msgs as [|msg rest IH]; intros parent w.
  - intros _. exists w. split; reflexivity.
  - destruct (messageNodes_cons model msg rest parent)
      as (n & Hn & -> & _).
    cbn [storeMessages putAll]. rewrite Hn.
    destruct (Put ctx (storer w) (Some n)) as [s' [e|]] eqn:HPut.
    + discriminate.
    + intros Hrest.
      destruct (IH (Some n)
                  (log (mkWorld s' (logs w)) DebugLevel "stored message in DAG")
                  Hrest) as (w' & Hrun & Hst).
      exists w'. rewrite Hrun. split; [|exact Hst].
      destruct (messageNodes model rest (Some n)) as [|n1 l] eqn:Hl.
      * reflexivity.
      * rewrite last_cons_cons.
        destruct (last (n1 :: l)) eqn:Hlast; [reflexivity|].
        apply last_None in Hlast. discriminate.
Qed.

Lemma putAll_app (ctx : Context) (s : S) (l1 l2 : list Node) :
  putAll ctx s (l1 ++ l2)
  = match putAll ctx s l1 with
    | (s', None) => putAll ctx s' l2
    | (s', Some e) => (s', Some e)
    end.
Proof.
  revert s. induction l1 as [|n l1 IH]; intros s; [reflexivity|].
  cbn [app putAll].
  destruct (Put ctx s (Some n)) as [s' [e|]]; [reflexivity|]. apply IH.
Qed.

(** The shape of a turn's nodes: one node per message, each below its
    predecessor, and the response node below the last of them. *)
Lemma turnNodes_shape (req : ChatRequest) (resp : ChatResponse) :
  ∃ nodes head,
    turnNodes req resp = nodes ++ [head]
    ∧ length nodes = length (Messages req)
    ∧ (∀ i msg, Messages req !! i = Some msg →
         ∃ n, nodes !! i = Some n
              ∧ Merkle.Content n = messageContent (Model req) msg
              ∧ ParentHash n
                = Hash <$> (match i with
                            | O => None
                            | Datatypes.S j => nodes !! j
                            end)
              ∧ computeHash n = Returns (Hash n))
    ∧ Merkle.Content head = responseContent resp
    ∧ ParentHash head = Hash <$> last nodes
    ∧ computeHash head = Returns (Hash head).
Proof.
  unfold turnNodes.
  set (nodes := messageNodes (Model req) (Messages req) None).
  destruct (NewNode_returns (responseContent resp) (last nodes)
              (responseContent_expressible resp))
    as (head & -> & Hc & Hp & Hh).
  exists nodes, head. split; [reflexivity|].
  split; [apply messageNodes_length|].
  split; [intros i msg Hi; apply (messageNodes_lookup _ _ None i msg Hi)|].
  auto.
Qed.

(** When the store accepts them, the recorder makes exactly the puts of
    the turn's nodes, in order, and returns the hash of the last. *)
Lemma storeConversationTurn_puts (ctx : Context) (req : ChatRequest)
    (resp : ChatResponse) (w : World S) :
  (putAll ctx (storer w) (turnNodes req resp)).2 = None →
  ∃ head w',
    last (turnNodes req resp) = Some head
    ∧ storeConversationTurn ctx req resp w = Returns (w', Ok (Hash head))
    ∧ storer w' = (putAll ctx (storer w) (turnNodes req resp)).1.
Proof.
  unfold turnNodes, storeConversationTurn.
  set (nodes := messageNodes (Model req) (Messages req) None).
  destruct (NewNode_returns (responseContent resp) (last nodes)
              (responseContent_expressible resp))
    as (head & Hhead & _).
  rewrite Hhead. rewrite putAll_app.
  destruct (putAll ctx (storer w) nodes) as [s1 [e|]] eqn:Hmsgs;
    [discriminate|].
  destruct (storeMessages_puts ctx (Model req) (Messages req) None w)
    as (w1 & Hrun & Hst1).
  { fold nodes. rewrite Hmsgs. reflexivity. }
  fold nodes in Hrun, Hst1. rewrite Hmsgs in Hst1. cbn [fst] in Hst1.
  rewrite Hrun.
  assert (Hparent : match last nodes with
                    | Some n => Some n
                    | None => None
                    end = last nodes) by (destruct (last nodes); reflexivity).
  rewrite Hparent, Hhead. cbn [putAll]. rewrite Hst1.
  destruct (Put ctx s1 (Some head)) as [s2 [e|]] eqn:HPut; [discriminate|].
  intros _. exists head. eexists.
  split; [apply last_snoc|]. split; reflexivity.
Qed.


(** With no messages the head node is a root. *)
Lemma turnNodes_no_messages (model : string) (resp : ChatResponse) :
  ∃ head, turnNodes (mkChatRequest model [] None EmptyString EmptyString)
            resp = [head]
          ∧ ParentHash head = None.
Proof.
  unfold turnNodes. cbn [Messages messageNodes last].
  destruct (NewNode_returns (responseContent resp) None
              (responseContent_expressible resp)) as (head & -> & _ & Hp & _).
  exists head. split; [reflexivity|exact Hp].
Qed.

(** Whatever the store answers, the recorder returns: it never panics. *)
Lemma storeMessages_returns (ctx : Context) (model : string)
    (msgs : list Message) (parent : option Node) (w : World S) :
  ∃ w' r, storeMessages ctx model msgs parent w = Returns (w', r).
Proof.
  revert parent w. induction msgs as [|msg rest IH]; intros parent w.
  - eexists _, _. reflexivity.
  - cbn [storeMessages].
    destruct (NewNode_returns (messageContent model msg) parent
                (messageContent_expressible model msg)) as (n & -> & _).
    destruct (Put ctx (storer w) (Some n)) as [s' [e|]].
    + eexists _, _. reflexivity.
    + apply IH.
Qed.

Lemma storeConversationTurn_returns (ctx : Context) (req : ChatRequest)
    (resp : ChatResponse) (w : World S) :
  ∃ w' r, storeConversationTurn ctx req resp w = Returns (w', r).
Proof.
  unfold storeConversationTurn.
  destruct (storeMessages_returns ctx (Model req) (Messages req) None w)
    as (w1 & [parent|e] & ->).
  - destruct (NewNode_returns (responseContent resp) parent
                (responseContent_expressible resp)) as (n & -> & _).
    destruct (Put ctx (storer w1) (Some n)) as [s' [e|]];
      eexists _, _; reflexivity.
  - eexists _, _. reflexivity.
Qed.

End Recorder.

Section RecorderInMemory.

(** The in-memory backend accepts every node, and the nodes put are
    there afterwards. *)
Lemma memory_putAll (ctx : Context) (s : gmap string Node)
    (nodes : list Node) :
  (putAll ctx s nodes).2 = None
  ∧ (∀ n, n ∈ nodes → is_Some ((putAll ctx s nodes).1 !! Hash n))
  ∧ (∀ h, is_Some (s !! h) → is_Some ((putAll ctx s nodes).1 !! h)).
Proof.
  revert s. induction nodes as [|n rest IH]; intros s.
  - split; [reflexivity|]. split; [intros n Hn; inversion Hn|auto].
  - cbn [putAll Put MemoryStorer]. unfold mem_put.
    destruct (s !! Hash n) as [old|] eqn:Hs.
    + destruct (IH s) as (Hok & Hin & Hkeep).
      split; [exact Hok|]. split; [|exact Hkeep].
      intros n' Hn'. apply elem_of_cons in Hn' as [->|Hn'].
      * apply Hkeep. rewrite Hs. eauto.
      * apply Hin, Hn'.
    + destruct (IH (<[Hash n:=n]> s)) as (Hok & Hin & Hkeep).
      split; [exact Hok|]. split.
      * intros n' Hn'. apply elem_of_cons in Hn' as [->|Hn'].
        -- apply Hkeep. rewrite lookup_insert_eq. eauto.
        -- apply Hin, Hn'.
      * intros h [x Hx]. apply Hkeep.
        destruct (decide (Hash n = h)) as [<-|Hne].
        -- rewrite lookup_insert_eq. eauto.
        -- rewrite lookup_insert_ne by exact Hne. eauto.
Qed.

(** On the in-memory backend the recorder always succeeds, and the
    whole chain can be fetched afterwards. *)
Lemma storeConversationTurn_in_memory (ctx : Context) (req : ChatRequest)
    (resp : ChatResponse) (w : World (gmap string Node)) :
  ∃ head w',
    last (turnNodes req resp) = Some head
    ∧ storeConversationTurn ctx req resp w = Returns (w', Ok (Hash head))
    ∧ ∀ n, n ∈ turnNodes req resp →
           ∃ n', Get ctx (storer w') (Hash n) = Ok n'.
Proof.
  destruct (memory_putAll ctx (storer w) (turnNodes req resp))
    as (Hok & Hin & _).
  destruct (storeConversationTurn_puts ctx req resp w Hok)
    as (head & w' & Hlast & Hrun & Hst).
  exists head, w'. split; [exact Hlast|]. split; [exact Hrun|].
  intros n Hn. rewrite Hst.
  destruct (Hin n Hn) as [n' Hn'].
  exists n'. cbn [Get MemoryStorer]. unfold mem_get. rewrite Hn'. reflexivity.
Qed.

End RecorderInMemory.

(** ** The in-memory store *)

Section MemoryStore.

Lemma keyed_empty : keyed NewMemoryStorer.
Proof. intros k m Hk. unfold NewMemoryStorer in Hk. by rewrite lookup_empty in Hk. Qed.

Lemma keyed_mem_put (s : gmap string Node) (o : option Node) :
  keyed s → keyed (mem_put s o).1.
Proof.
  intros Hs. destruct o as [n|]; [|exact Hs].
  unfold mem_put. destruct (s !! Hash n) eqn:Hn; [exact Hs|].
  intros k m. cbn [fst]. rewrite lookup_insert.
  case_decide as Hk; [|apply Hs].
  intros [= <-]. exact Hk.
Qed.

Lemma keyed_mem_run (ops : list (option Node)) (s : gmap string Node) :
  keyed s → keyed (mem_run ops s).
Proof.
  revert s. induction ops as [|o ops IH]; intros s Hs; [exact Hs|].
  apply IH, keyed_mem_put, Hs.
Qed.

Lemma mem_put_keeps (s : gmap string Node) (o : option Node) (h : string) :
  is_Some (s !! h) → is_Some ((mem_put s o).1 !! h).
Proof.
  intros Hh. destruct o as [n|]; [|exact Hh].
  unfold mem_put. destruct (s !! Hash n) eqn:Hn; [exact Hh|].
  cbn [fst]. rewrite lookup_insert. case_decide; eauto.
Qed.

Lemma mem_run_keeps (ops : list (option Node)) (s : gmap string Node)
    (h : string) :
  is_Some (s !! h) → is_Some (mem_run ops s !! h).
Proof.
  revert s. induction ops as [|o ops IH]; intros s Hs; [exact Hs|].
  apply IH, mem_put_keeps, Hs.
Qed.

Lemma mem_put_present (s : gmap string Node) (n : Node) :
  is_Some ((mem_put s (Some n)).1 !! Hash n).
Proof.
  unfold mem_put. destruct (s !! Hash n) eqn:Hn; cbn [fst].
  - rewrite Hn. eauto.
  - rewrite lookup_insert_eq. eauto.
Qed.

Lemma mem_run_present (ops : list (option Node)) (s : gmap string Node)
    (n : Node) :
  Some n ∈ ops → is_Some (mem_run ops s !! Hash n).
Proof.
  revert s. induction ops as [|o ops IH]; intros s Hin.
  - inversion Hin.
  - change (mem_run (o :: ops) s) with (mem_run ops (mem_put s o).1).
    apply elem_of_cons in Hin as [<-|Hin].
    + apply mem_run_keeps, mem_put_present.
    + apply IH, Hin.
Qed.

(** In a keyed store, [List] holds one record for a stored hash and
    none for any other. *)
Lemma keyed_records (s : gmap string Node) (h : string) :
  keyed s →
  length (filter (λ m, Hash m = h) (mem_list s))
  = match s !! h with
    | Some _ => 1%nat
    | None => 0%nat
    end.
Proof.
  unfold mem_list.
  induction s as [|i x m Hi IH] using map_ind; intros Hs.
  - rewrite map_to_list_empty, lookup_empty. reflexivity.
  - rewrite map_to_list_insert by exact Hi.
    rewrite fmap_cons, filter_cons. cbn [snd].
    assert (Hx : Hash x = i) by (apply Hs, lookup_insert_eq).
    assert (Hm : keyed m).
    { intros k y Hk. apply Hs. rewrite lookup_insert_ne; [exact Hk|].
      intros ->. rewrite Hi in Hk. discriminate. }
    destruct (decide (i = h)) as [Hih|Hih].
    + rewrite decide_True by congruence.
      cbn [length]. rewrite (IH Hm). subst h.
      rewrite Hi, lookup_insert_eq. reflexivity.
    + rewrite decide_False by congruence.
      rewrite lookup_insert_ne by exact Hih. apply IH, Hm.
Qed.

(** C2: after any schedule of puts on a fresh in-memory store in which
    the node [n] (any node object carrying its hash) is put [N >= 1]
    times, interleaved at will with puts of other nodes by other
    callers, [List] holds exactly one record with the hash of [n]; and
    a put of a node whose hash is present returns no error and leaves
    the store as it was. *)
Theorem Put_idempotent_by_hash (n : Node) (N : nat)
    (ops : list (option Node)) :
  length (filter (λ o, Hash <$> o = Some (Hash n)) ops) = N →
  (1 <= N)%nat →
  length (filter (λ m, Hash m = Hash n)
            (mem_list (mem_run ops NewMemoryStorer))) = 1%nat
  ∧ ∀ (ctx : Context) (s : gmap string Node),
      is_Some (s !! Hash n) → Put ctx s (Some n) = (s, None).
Proof.
  intros HN Hpos. split.
  - rewrite keyed_records by apply keyed_mem_run, keyed_empty.
    assert (Hin : ∃ n', Some n' ∈ ops ∧ Hash n' = Hash n).
    { destruct (filter (λ o, Hash <$> o = Some (Hash n)) ops)
        as [|o l] eqn:Hf.
      - subst N. cbn in Hpos. lia.
      - assert (Ho : o ∈ filter (λ o, Hash <$> o = Some (Hash n)) ops)
          by (rewrite Hf; apply list_elem_of_here).
        apply list_elem_of_filter in Ho as [Hh Ho].
        destruct o as [n'|]; [|discriminate].
        exists n'. split; [exact Ho|]. injection Hh as ->. reflexivity. }
    destruct Hin as (n' & Hin & <-).
    destruct (mem_run_present ops NewMemoryStorer n' Hin) as [m ->].
    reflexivity.
  - intros ctx s [m Hm]. cbn [Put MemoryStorer]. unfold mem_put.
    rewrite Hm. reflexivity.
Qed.

End MemoryStore.

(** ** The streaming path *)

Section Strings.

Lemma append_cons (c : ascii) (s t : string) :
  String c s +:+ t = String c (s +:+ t).
Proof. reflexivity. Qed.

Lemma append_empty_r (s : string) : s +:+ EmptyString = s.
Proof. induction s as [|c s IH]; [reflexivity|]. rewrite append_cons, IH. reflexivity. Qed.

Lemma append_assoc (s t u : string) : (s +:+ t) +:+ u = s +:+ (t +:+ u).
Proof.
  induction s as [|c s IH]; [reflexivity|].
  rewrite !append_cons, IH. reflexivity.
Qed.

Lemma length_append (s t : string) :
  String.length (s +:+ t) = (String.length s + String.length t)%nat.
Proof.
  induction s as [|c s IH]; [reflexivity|].
  rewrite append_cons. cbn [String.length]. rewrite IH. reflexivity.
Qed.

End Strings.

Section Scanner.



End Scanner.

Section Writer.

Lemma relay_line (wr : Writer) (line : string) :
  err wr = false → buf wr = EmptyString →
  Flush (Write (Write wr line) (String LF EmptyString))
  = match accepts (conn wr) with
    | None =>
        mkWriter EmptyString false
          (mkConn (received (conn wr) ++ [line +:+ String LF EmptyString]) None)
    | Some (Datatypes.S k) =>
        mkWriter EmptyString false
          (mkConn (received (conn wr) ++ [line +:+ String LF EmptyString])
                  (Some k))
    | Some O => mkWriter (line +:+ String LF EmptyString) true (conn wr)
    end.
Proof.
  destruct wr as [b e c]. cbn [err buf conn]. intros -> ->.
  unfold Write, Flush, conn_write. cbn [err buf conn].
  change (EmptyString +:+ line) with line.
  destruct line as [|ch line].
  - change (EmptyString +:+ String LF EmptyString) with (String LF EmptyString).
    destruct (accepts c) as [[|k]|]; reflexivity.
  - rewrite append_cons. destruct (accepts c) as [[|k]|]; reflexivity.
Qed.

Lemma relay_failed (wr : Writer) (line : string) :
  err wr = true →
  Flush (Write (Write wr line) (String LF EmptyString)) = wr.
Proof.
  intros He. unfold Write at 2. rewrite He.
  unfold Write. rewrite He. unfold Flush. rewrite He. reflexivity.
Qed.

End Writer.

Section StreamLoop.
Context {S : Type}.
Variable unm : string → option StreamChunk.

Lemma streamLine_skip (st : Streaming S) (line : string) :
  chunkOf unm line = None →
  fullContent (streamLine unm st line) = fullContent st
  ∧ finalResp (streamLine unm st line) = finalResp st
  ∧ writer (streamLine unm st line) = writer st
  ∧ storer (during (streamLine unm st line)) = storer (during st)
  ∧ ∃ extra, logs (during (streamLine unm st line)) = logs (during st) ++ extra.
Proof.
  unfold chunkOf, streamLine.
  destruct (Nat.eqb (String.length line) 0).
  - intros _. repeat split; try reflexivity. exists []. by rewrite app_nil_r.
  - intros ->. repeat split; try reflexivity. eexists. reflexivity.
Qed.

Lemma streamLine_chunk (st : Streaming S) (line : string)
    (chunk : StreamChunk) :
  chunkOf unm line = Some chunk →
  streamLine unm st line
  = mkStreaming
      (fullContent st +:+ Llm.Content (chunk_Message chunk))
      (if chunk_Done chunk
       then Some (materialized
                    (fullContent st +:+ Llm.Content (chunk_Message chunk))
                    chunk)
       else finalResp st)
      (Flush (Write (Write (writer st) line) (String LF EmptyString)))
      (log (during st) DebugLevel "streaming chunk").
Proof.
  unfold chunkOf, streamLine.
  destruct (Nat.eqb (String.length line) 0); [discriminate|].
  intros ->. reflexivity.
Qed.

Lemma framed_cons_skip (line : string) (tokens : list string) :
  chunkOf unm line = None → framed unm (line :: tokens) = framed unm tokens.
Proof.
  intros Hc. unfold framed. rewrite filter_cons.
  rewrite decide_False; [reflexivity|].
  rewrite Hc. intros [? ?]; discriminate.
Qed.

Lemma framed_cons_chunk (line : string) (tokens : list string)
    (chunk : StreamChunk) :
  chunkOf unm line = Some chunk →
  framed unm (line :: tokens)
  = (line +:+ String LF EmptyString) :: framed unm tokens.
Proof.
  intros Hc. unfold framed. rewrite filter_cons.
  rewrite decide_True; [reflexivity|]. rewrite Hc. eauto.
Qed.

(** Once a write has failed, the writer stays as it is. *)
Lemma loop_failed (tokens : list string) (st : Streaming S) :
  err (writer st) = true → writer (fold_left (streamLine unm) tokens st) = writer st.
Proof.
  revert st. induction tokens as [|line tokens IH]; intros st He.
  - reflexivity.
  - cbn [fold_left]. destruct (chunkOf unm line) as [chunk|] eqn:Hc.
    + rewrite IH; rewrite (streamLine_chunk st line chunk Hc);
        cbn [writer]; rewrite relay_failed by exact He; [reflexivity|exact He].
    + destruct (streamLine_skip st line Hc) as (_ & _ & Hw & _).
      rewrite IH; rewrite Hw; [reflexivity|exact He].
Qed.

(** The client receives, one write per line, the tokens that parse;
    after it has disconnected it receives nothing more. *)
Lemma loop_received (tokens : list string) (st : Streaming S) :
  err (writer st) = false → buf (writer st) = EmptyString →
  received (conn (writer (fold_left (streamLine unm) tokens st)))
  = received (conn (writer st))
    ++ delivered (accepts (conn (writer st))) (framed unm tokens).
Proof.
  revert st. induction tokens as [|line tokens IH]; intros st He Hb.
  - cbn [fold_left]. unfold framed, delivered.
    destruct (accepts (conn (writer st))); cbn; by rewrite ?take_nil, app_nil_r.
  - cbn [fold_left]. destruct (chunkOf unm line) as [chunk|] eqn:Hc.
    + rewrite (framed_cons_chunk line tokens chunk Hc).
      rewrite (streamLine_chunk st line chunk Hc).
      set (st' := mkStreaming _ _ _ _).
      assert (Hw : writer st'
                   = Flush (Write (Write (writer st) line)
                              (String LF EmptyString))) by reflexivity.
      rewrite (relay_line (writer st) line He Hb) in Hw.
      destruct (accepts (conn (writer st))) as [[|k]|] eqn:Hacc.
      * rewrite loop_failed; rewrite Hw; [|reflexivity].
        cbn [conn delivered take]. by rewrite app_nil_r.
      * rewrite IH; rewrite Hw; [|reflexivity|reflexivity].
        cbn [conn received accepts delivered take].
        by rewrite <- app_assoc.
      * rewrite IH; rewrite Hw; [|reflexivity|reflexivity].
        cbn [conn received accepts delivered].
        by rewrite <- app_assoc.
    + rewrite (framed_cons_skip line tokens Hc).
      destruct (streamLine_skip st line Hc) as (_ & _ & Hw & _).
      rewrite IH; rewrite Hw; [reflexivity|exact He|exact Hb].
Qed.

(** A final response exists after the loop exactly when one existed
    before or a chunk with [done] set was parsed. *)
Lemma loop_final (tokens : list string) (st : Streaming S) :
  is_Some (finalResp (fold_left (streamLine unm) tokens st))
  ↔ is_Some (finalResp st) ∨ doneSeen unm tokens.
Proof.
  revert st. induction tokens as [|line tokens IH]; intros st.
  - cbn [fold_left]. split; [auto|].
    intros [H|(l & c & Hl & _)]; [exact H|inversion Hl].
  - cbn [fold_left]. rewrite IH.
    destruct (chunkOf unm line) as [chunk|] eqn:Hc.
    + rewrite (streamLine_chunk st line chunk Hc). cbn [finalResp].
      destruct (chunk_Done chunk) eqn:Hd.
      * split; [|eauto]. intros _. right.
        exists line, chunk. split; [apply list_elem_of_here|auto].
      * split.
        -- intros [H|(l & c & Hl & Hlc & Hdone)]; [auto|].
           right. exists l, c. split; [by apply list_elem_of_further|auto].
        -- intros [H|(l & c & Hl & Hlc & Hdone)]; [auto|].
           apply elem_of_cons in Hl as [->|Hl].
           ++ rewrite Hc in Hlc. injection Hlc as <-. congruence.
           ++ right. exists l, c. auto.
    + destruct (streamLine_skip st line Hc) as (_ & -> & _).
      split.
      * intros [H|(l & c & Hl & Hlc & Hdone)]; [auto|].
        right. exists l, c. split; [by apply list_elem_of_further|auto].
      * intros [H|(l & c & Hl & Hlc & Hdone)]; [auto|].
        apply elem_of_cons in Hl as [->|Hl]; [congruence|].
        right. exists l, c. auto.
Qed.

(** A final response made by the loop carries the role ["assistant"]. *)
Lemma loop_role (tokens : list string) (st : Streaming S)
    (final : ChatResponse) :
  finalResp (fold_left (streamLine unm) tokens st) = Some final →
  finalResp st = Some final ∨ Role (resp_Message final) = "assistant".
Proof.
  revert st. induction tokens as [|line tokens IH]; intros st.
  - cbn [fold_left]. auto.
  - cbn [fold_left]. intros Hf. destruct (IH _ Hf) as [Hst|Hrole]; [|auto].
    destruct (chunkOf unm line) as [chunk|] eqn:Hc.
    + rewrite (streamLine_chunk st line chunk Hc) in Hst. cbn [finalResp] in Hst.
      destruct (chunk_Done chunk); [|auto].
      injection Hst as <-. right. reflexivity.
    + destruct (streamLine_skip st line Hc) as (_ & Hfr & _).
      rewrite Hfr in Hst. auto.
Qed.

End StreamLoop.

Section StreamParts.
Context {S S' : Type}.
Variable unm : string → option StreamChunk.

(** The accumulator and the final response do not depend on the writer
    or on the surroundings; the writer depends on neither. *)
Lemma streamLine_parts (st : Streaming S) (st' : Streaming S')
    (line : string) :
  (fullContent st = fullContent st' → finalResp st = finalResp st' →
   fullContent (streamLine unm st line) = fullContent (streamLine unm st' line)
   ∧ finalResp (streamLine unm st line) = finalResp (streamLine unm st' line))
  ∧ (writer st = writer st' →
     writer (streamLine unm st line) = writer (streamLine unm st' line)).
Proof.
  unfold streamLine.
  destruct (Nat.eqb (String.length line) 0); [auto|].
  destruct (unm line) as [chunk|]; cbn [fullContent finalResp writer]; [|auto].
  split.
  - intros -> ->. auto.
  - intros ->. reflexivity.
Qed.

Lemma loop_parts (tokens : list string) (st : Streaming S)
    (st' : Streaming S') :
  (fullContent st = fullContent st' → finalResp st = finalResp st' →
   fullContent (fold_left (streamLine unm) tokens st)
   = fullContent (fold_left (streamLine unm) tokens st')
   ∧ finalResp (fold_left (streamLine unm) tokens st)
     = finalResp (fold_left (streamLine unm) tokens st'))
  ∧ (writer st = writer st' →
     writer (fold_left (streamLine unm) tokens st)
     = writer (fold_left (streamLine unm) tokens st')).
Proof.
  revert st st'. induction tokens as [|line tokens IH]; intros st st'.
  - cbn [fold_left]. auto.
  - cbn [fold_left].
    destruct (streamLine_parts st st' line) as [Hcore Hwr].
    destruct (IH (streamLine unm st line) (streamLine unm st' line))
      as [IHcore IHwr].
    split.
    + intros Hc Hf. destruct (Hcore Hc Hf). auto.
    + auto.
Qed.

End StreamParts.

Section StreamSurroundings.
Context {S : Type}.
Variable unm : string → option StreamChunk.


(** The loop leaves the store alone. *)
Lemma loop_storer (tokens : list string) (st : Streaming S) :
  storer (during (fold_left (streamLine unm) tokens st)) = storer (during st).
Proof.
  revert st. induction tokens as [|line tokens IH]; intros st.
  - reflexivity.
  - cbn [fold_left]. rewrite IH. unfold streamLine.
    destruct (Nat.eqb (String.length line) 0); [reflexivity|].
    destruct (unm line); reflexivity.
Qed.

End StreamSurroundings.

Section StreamHandler.
Context {S : Type} `{!Storer S}.
Variable unm : string → option StreamChunk.

(** The end of the stream writer returns; what it records and what it
    leaves behind depend on the accumulator, the final response and the
    surroundings, not on the writer. *)
Lemma finishStream_returns (req : ChatRequest) (scanErr : option error)
    (st : Streaming S) :
  ∃ w', ∀ st' : Streaming S,
    fullContent st' = fullContent st → finalResp st' = finalResp st →
    during st' = during st →
    finishStream req scanErr st'
    = Returns (mkStreaming (fullContent st) (finalResp st) (writer st') w',
               match finalResp st with
               | Some final => [(Background, req, final)]
               | None => []
               end)
      ∧ (finalResp st = None → storer w' = storer (during st)).
Proof.
  unfold finishStream. destruct (finalResp st) as [final|] eqn:Hf.
  - set (w1 := match scanErr with
               | Some _ => log (during st) ErrorLevel "error reading stream"
               | None => during st
               end).
    destruct (storeConversationTurn_returns Background req final
                (log w1 DebugLevel "streaming complete")) as (w3 & res & Hrun).
    eexists. intros st' -> Hf' Hd. rewrite Hf', Hd. fold w1. rewrite Hrun.
    split; [reflexivity|discriminate].
  - eexists. intros st' -> Hf' Hd. rewrite Hf', Hd.
    split; [reflexivity|]. intros _. destruct scanErr; reflexivity.
Qed.

(** On a 200 response the handler streams and returns. *)
Lemma handleStreamingChat_streams (req : ChatRequest) (body : string)
    (readErr : option error) (accepts : option nat) (w : World S) :
  let st := scanned unm body readErr accepts w in
  ∃ w',
    handleStreamingChat unm req (Responds StatusOK body readErr) accepts w
    = Returns (mkHandled
                 (mkReply StatusOK
                    [("Content-Type", "application/x-ndjson");
                     ("Transfer-Encoding", "chunked")]
                    (received (conn (writer st))))
                 (match finalResp st with
                  | Some final => [(Background, req, final)]
                  | None => []
                  end)
                 w').
Proof.
  cbv zeta. unfold handleStreamingChat, streamWriter, scanned.
  change (negb (Z.eqb StatusOK StatusOK)) with false. cbv iota.
  destruct (scan body readErr) as [tokens scanErr]. cbn [fst].
  set (st := fold_left (streamLine unm) tokens _).
  destruct (finishStream_returns req scanErr st) as (w' & Hfin).
  destruct (Hfin st eq_refl eq_refl eq_refl) as [-> _].
  exists w'. reflexivity.
Qed.

Lemma scanned_received (body : string) (readErr : option error)
    (accepts : option nat) (w : World S) :
  received (conn (writer (scanned unm body readErr accepts w)))
  = delivered accepts (framed unm (scan body readErr).1).
Proof. unfold scanned. rewrite loop_received; reflexivity. Qed.


(** On a status other than 200 the handler relays the status with its
    own error envelope and records nothing. *)
Lemma handleStreamingChat_error_status (req : ChatRequest) (code : Z)
    (body : string) (readErr : option error) (accepts : option nat)
    (w : World S) :
  code ≠ StatusOK →
  handleStreamingChat unm req (Responds code body readErr) accepts w
  = Returns (mkHandled
               (JSON code (marshal_ErrorResponse (mkErrorResponse "upstream error")))
               []
               (log (log w DebugLevel "forwarding streaming request to upstream")
                    ErrorLevel "upstream returned error")).
Proof.
  intros Hcode. unfold handleStreamingChat.
  assert (Hneq : negb (Z.eqb code StatusOK) = true)
    by (apply negb_true_iff, Z.eqb_neq, Hcode).
  rewrite Hneq. reflexivity.
Qed.

End StreamHandler.

Section StreamingPath.
Context {S : Type} `{!Storer S}.
Variable unm : string → option StreamChunk.


(** C5: the streaming handler returns; on the way it invokes the
    recorder at most once, and it does so exactly when the upstream
    answered 200 and a chunk with [done] set was parsed from the tokens
    the scanner delivered before it ended; without such a chunk nothing
    is recorded and the store is as before; and the reply is the same
    whatever backend the recorder writes to, failing or not. *)
Theorem streaming_records_once_iff_done {S' : Type} `{!Storer S'}
    (req : ChatRequest) (up : Upstream) (accepts : option nat)
    (w : World S) (w' : World S') :
  ∃ h h',
    handleStreamingChat unm req up accepts w = Returns h
    ∧ handleStreamingChat unm req up accepts w' = Returns h'
    ∧ (length (recorded h) <= 1)%nat
    ∧ (recorded h ≠ [] ↔
       ∃ body readErr, up = Responds StatusOK body readErr
                       ∧ doneSeen unm (scan body readErr).1)
    ∧ (recorded h = [] → storer (world h) = storer w)
    ∧ (∀ call, call ∈ recorded h → call.1.1 = Background ∧ call.1.2 = req)
    ∧ reply h' = reply h.
Proof.
  destruct up as [e|e|e|code body readErr].
  1-3: (eexists _, _; split; [reflexivity|]; split; [reflexivity|];
        cbn [recorded reply world length]; split; [lia|];
        split; [split; [congruence|intros (b & r & Hup & _); discriminate]|];
        split; [reflexivity|]; split; [intros c Hc; inversion Hc|reflexivity]).
  destruct (decide (code = StatusOK)) as [->|Hcode].
  - unfold handleStreamingChat, streamWriter.
    change (negb (Z.eqb StatusOK StatusOK)) with false. cbv iota.
    destruct (scan body readErr) as [tokens scanErr] eqn:Hscan.
    set (st := fold_left (streamLine unm) tokens
                 (mkStreaming EmptyString None (NewWriter (mkConn [] accepts))
                    (log w DebugLevel "forwarding streaming request to upstream"))).
    set (st' := fold_left (streamLine unm) tokens
                 (mkStreaming EmptyString None (NewWriter (mkConn [] accepts))
                    (log w' DebugLevel "forwarding streaming request to upstream"))).
    destruct (loop_parts unm tokens
                (mkStreaming EmptyString None (NewWriter (mkConn [] accepts))
                   (log w DebugLevel "forwarding streaming request to upstream"))
                (mkStreaming EmptyString None (NewWriter (mkConn [] accepts))
                   (log w' DebugLevel "forwarding streaming request to upstream")))
      as [Hcore Hwr].
    destruct (Hcore eq_refl eq_refl) as [_ Hfinal].
    specialize (Hwr eq_refl). fold st st' in Hfinal, Hwr.
    destruct (finishStream_returns req scanErr st) as (w1 & Hfin).
    destruct (Hfin st eq_refl eq_refl eq_refl) as [-> Hstore].
    destruct (finishStream_returns req scanErr st') as (w1' & Hfin').
    destruct (Hfin' st' eq_refl eq_refl eq_refl) as [-> _].
    eexists _, _. split; [reflexivity|]. split; [reflexivity|].
    cbn [recorded reply world writer].
    pose proof (loop_final unm tokens
                  (mkStreaming EmptyString None (NewWriter (mkConn [] accepts))
                     (log w DebugLevel "forwarding streaming request to upstream")))
      as Hdone.
    fold st in Hdone. cbn [finalResp] in Hdone.
    split; [destruct (finalResp st); cbn [length]; lia|].
    split.
    { split.
      - intros Hrec. exists body, readErr. split; [reflexivity|].
        rewrite Hscan. cbn [fst].
        assert (Hsome : is_Some (finalResp st)).
        { destruct (finalResp st); [eauto|]. exfalso. apply Hrec. reflexivity. }
        destruct (proj1 Hdone Hsome) as [[x Hx]|Hseen];
          [discriminate Hx|exact Hseen].
      - intros (b & r & [= <- <-] & Hseen).
        rewrite Hscan in Hseen. cbn [fst] in Hseen.
        destruct Hdone as [_ [final Hf]]; [auto|]. rewrite Hf. discriminate. }
    split.
    { destruct (finalResp st) eqn:Hf; [discriminate|]. intros _.
      cbn [during]. rewrite (Hstore eq_refl). unfold st. rewrite loop_storer. reflexivity. }
    split.
    { intros call Hcall. destruct (finalResp st); [|inversion Hcall].
      apply list_elem_of_singleton in Hcall as ->. auto. }
    rewrite Hwr. reflexivity.
  - rewrite !(handleStreamingChat_error_status unm) by exact Hcode.
    eexists _, _; split; [reflexivity|]; split; [reflexivity|].
    cbn [recorded reply world length]. split; [lia|].
    split; [split; [congruence|intros (b & r & [= -> _ _] & _); congruence]|].
    split; [reflexivity|]. split; [intros c Hc; inversion Hc|reflexivity].
Qed.


(** C7 (amended): when the upstream answers with a status other than
    200, the handler replies with that status and the JSON error
    envelope; the upstream's body is not relayed; the recorder is not
    invoked and the store is as before. *)
Theorem streaming_upstream_error_status (req : ChatRequest) (code : Z)
    (body : string) (readErr : option error) (accepts : option nat)
    (w : World S) :
  code ≠ StatusOK →
  ∃ h,
    handleStreamingChat unm req (Responds code body readErr) accepts w
    = Returns h
    ∧ reply h = JSON code ("{" +:+ quoted "error" +:+ ":" +:+ quoted "upstream error" +:+ "}")
    ∧ recorded h = []
    ∧ storer (world h) = storer w.
Proof.
  intros Hcode.
  rewrite (handleStreamingChat_error_status unm) by exact Hcode.
  eexists. split; [reflexivity|]. cbn [reply recorded world]. auto.
Qed.

(** C9: every final response the streaming handler hands to the
    recorder has the message role ["assistant"], whatever roles the
    chunks carried, and so has the content of the response node built
    from it. *)
Theorem streaming_final_role_assistant (req : ChatRequest) (up : Upstream)
    (accepts : option nat) (w : World S) :
  ∃ h,
    handleStreamingChat unm req up accepts w = Returns h
    ∧ ∀ ctx rq final, (ctx, rq, final) ∈ recorded h →
        Role (resp_Message final) = "assistant"
        ∧ (∃ m, responseContent final = VMap m
                ∧ m !! "role" = Some (VString "assistant"))
        ∧ ∃ head, last (turnNodes rq final) = Some head
                  ∧ Merkle.Content head = responseContent final.
Proof.
  assert (Hnode : ∀ rq final,
            Role (resp_Message final) = "assistant" →
            Role (resp_Message final) = "assistant"
            ∧ (∃ m, responseContent final = VMap m
                    ∧ m !! "role" = Some (VString "assistant"))
            ∧ ∃ head, last (turnNodes rq final) = Some head
                      ∧ Merkle.Content head = responseContent final).
  { intros rq final Hrole. split; [exact Hrole|]. split.
    - eexists. split; [reflexivity|]. rewrite Hrole. reflexivity.
    - unfold turnNodes.
      destruct (NewNode_returns (responseContent final)
                  (last (messageNodes (Model rq) (Messages rq) None))
                  (responseContent_expressible final))
        as (head & -> & Hc & _).
      exists head. split; [apply last_snoc|exact Hc]. }
  destruct up as [e|e|e|code body readErr].
  1-3: (eexists; split; [reflexivity|]; intros ctx rq final Hin; inversion Hin).
  destruct (decide (code = StatusOK)) as [->|Hcode].
  - destruct (handleStreamingChat_streams unm req body readErr accepts w)
      as (w' & Hrun).
    eexists. split; [exact Hrun|]. cbn [recorded].
    intros ctx rq final Hin.
    destruct (finalResp (scanned unm body readErr accepts w)) as [f|] eqn:Hf;
      [|inversion Hin].
    apply list_elem_of_singleton in Hin. injection Hin as -> -> ->.
    apply Hnode. unfold scanned in Hf.
    destruct (loop_role unm _ _ _ Hf) as [Hinit|Hrole];
      [discriminate|exact Hrole].
  - rewrite (handleStreamingChat_error_status unm) by exact Hcode.
    eexists. split; [reflexivity|]. cbn [recorded].
    intros ctx rq final Hin. inversion Hin.
Qed.

End StreamingPath.

(** ** The non-streaming path and the node endpoint *)

Section NonStreamingPath.
Context {S : Type} `{!Storer S}.
Variable unmarshalResponse : string → option ChatResponse.

(** C8: once the upstream's response has been decoded, the handler
    returns it to the client as JSON with status 200 whether the
    recorder succeeds or fails; a recorder error only adds an error
    entry to the log. *)
Theorem nonstreaming_reply_despite_recorder_error (req req' : ChatRequest)
    (up : Upstream) (w w1 : World S) (resp : ChatResponse) :
  forwardRequest unmarshalResponse req up w = (req', w1, Ok resp) →
  ∃ w2 res,
    storeConversationTurn RequestCtx req' resp
      (log w1 DebugLevel "received response from upstream")
    = Returns (w2, res)
    ∧ handleNonStreamingChat unmarshalResponse req up w
      = Returns (mkHandled
                   (JSON StatusOK (marshal_ChatResponse resp))
                   [(RequestCtx, req', resp)]
                   (match res with
                    | Err _ => log w2 ErrorLevel "failed to store conversation"
                    | Ok _ => log w2 InfoLevel "conversation stored"
                    end)).
Proof.
  intros Hfwd. unfold handleNonStreamingChat. rewrite Hfwd.
  destruct (storeConversationTurn_returns RequestCtx req' resp
              (log w1 DebugLevel "received response from upstream"))
    as (w2 & res & Hrun).
  exists w2, res. rewrite Hrun. split; reflexivity.
Qed.

(** The upstream's response is decoded exactly when the call went
    through, the body was read to its end, the status is 200 and the
    body parses. *)
Lemma forwardRequest_Ok (req req' : ChatRequest) (up : Upstream)
    (w w1 : World S) (resp : ChatResponse) :
  forwardRequest unmarshalResponse req up w = (req', w1, Ok resp) →
  ∃ body, up = Responds StatusOK body None
          ∧ unmarshalResponse body = Some resp.
Proof.
  unfold forwardRequest. destruct up as [e|e|e|code body [e|]];
    try (intros [= _ _]; fail); try discriminate.
  destruct (Z.eqb code StatusOK) eqn:Hcode; cbn [negb]; [|discriminate].
  apply Z.eqb_eq in Hcode as ->.
  destruct (unmarshalResponse body) as [r|] eqn:Hr; [|discriminate].
  intros [= _ _ ->]. eauto.
Qed.

End NonStreamingPath.

Section NodeEndpoint.
Context {S : Type} `{!Storer S}.

(** C10: for a route parameter [hash] (not empty), whenever the store's
    [Get] returns an error, of whatever kind, the handler answers 404
    with the body [{"error":"node not found"}]. For the empty parameter
    the handler answers 400 before it consults the store. *)
Theorem handleGetNode_any_error_not_found (hash : string) (w : World S)
    (e : error) :
  hash ≠ EmptyString →
  Get RequestCtx (storer w) hash = Err e →
  handleGetNode hash w
  = JSON StatusNotFound
      ("{" +:+ quoted "error" +:+ ":" +:+ quoted "node not found" +:+ "}").
Proof.
  intros Hhash Hget. unfold handleGetNode.
  rewrite decide_False by exact Hhash. rewrite Hget. reflexivity.
Qed.

End NodeEndpoint.

(** ** Instances on the sample traffic *)

Section Instances.
Import Samples.

(** Two parents that differ and carry the same hash. *)
Lemma NewNode_hash_hex_and_determined_witness :
  let content := VMap {[ "role" := VString "user"; "n" := VInt 42 ]} in
  let p := mkNode "ab" None (VString "one") in
  let p' := mkNode "ab" (Some "cd") (VString "two") in
  p ≠ p'
  ∧ ∃ n n' data,
      NewNode content (Some p) = Returns n
      ∧ NewNode content (Some p') = Returns n'
      ∧ marshal_input (mkInput content "ab") = Some data
      ∧ Hash n = Hex.EncodeToString (Sha256.Sum256 (bytes_of data))
      ∧ String.length (Hash n) = 64%nat
      ∧ Hex.all_lower_hex (Hash n) = true
      ∧ Hash n' = Hash n.
Proof.
  cbv zeta. split; [discriminate|].
  apply (NewNode_hash_hex_and_determined
           (VMap {[ "role" := VString "user"; "n" := VInt 42 ]})
           (Some (mkNode "ab" None (VString "one")))
           (Some (mkNode "ab" (Some "cd") (VString "two")))).
  - vm_compute. eexists. reflexivity.
  - reflexivity.
Defined.


(** Three puts of one node among puts of another and a nil put. *)
Lemma Put_idempotent_by_hash_witness :
  let a := mkNode "aa" None (VString "a") in
  let b := mkNode "bb" (Some "aa") (VString "b") in
  let ops := [Some a; Some b; None; Some a; Some b; Some a] in
  length (filter (λ o, Hash <$> o = Some (Hash a)) ops) = 3%nat
  ∧ length (filter (λ m, Hash m = Hash a)
              (mem_list (mem_run ops NewMemoryStorer))) = 1%nat.
Proof.
  cbv zeta. split; [reflexivity|].
  apply (Put_idempotent_by_hash (mkNode "aa" None (VString "a")) 3
           [Some (mkNode "aa" None (VString "a"));
            Some (mkNode "bb" (Some "aa") (VString "b")); None;
            Some (mkNode "aa" None (VString "a"));
            Some (mkNode "bb" (Some "aa") (VString "b"));
            Some (mkNode "aa" None (VString "a"))]).
  - reflexivity.
  - lia.
Defined.



(** A 503 from the upstream. *)
Lemma streaming_upstream_error_status_witness :
  503 ≠ StatusOK
  ∧ ∃ h,
      handleStreamingChat decodeChunk request
        (Responds 503 "model is loading" None) None empty_memory = Returns h
      ∧ reply h = JSON 503 ("{" +:+ quoted "error" +:+ ":" +:+ quoted "upstream error" +:+ "}")
      ∧ recorded h = []
      ∧ storer (world h) = storer empty_memory.
Proof.
  split; [discriminate|].
  apply (streaming_upstream_error_status decodeChunk request 503
           "model is loading" None None empty_memory).
  discriminate.
Defined.

(** C7, as stated, fails on a 503 with a body: the client gets the
    status, and the proxy's error envelope in place of the upstream's
    body. *)
Lemma streaming_upstream_body_counterexample :
  ∃ h,
    handleStreamingChat decodeChunk request
      (Responds 503 "model is loading" None) None empty_memory = Returns h
    ∧ Status (reply h) = 503
    ∧ Body (reply h)
      = ["{" +:+ quoted "error" +:+ ":" +:+ quoted "upstream error" +:+ "}"]
    ∧ Body (reply h) ≠ ["model is loading"].
Proof.
  eexists. split.
  - apply (handleStreamingChat_error_status decodeChunk). discriminate.
  - cbn [reply Status Body JSON]. split; [reflexivity|].
    split; [reflexivity|]. discriminate.
Qed.

(** The store cannot be reached: the recorder fails and the client
    still receives the upstream's response. *)
Lemma nonstreaming_reply_despite_recorder_error_witness :
  ∃ req' w1 w2 e,
    forwardRequest decodeResponse request
      (Responds StatusOK reply_body None) offline = (req', w1, Ok reply_ok)
    ∧ storeConversationTurn RequestCtx req' reply_ok
        (log w1 DebugLevel "received response from upstream")
      = Returns (w2, Err e)
    ∧ handleNonStreamingChat decodeResponse request
        (Responds StatusOK reply_body None) offline
      = Returns (mkHandled (JSON StatusOK reply_body)
                   [(RequestCtx, req', reply_ok)]
                   (log w2 ErrorLevel "failed to store conversation")).
Proof.
  assert (Hfwd : forwardRequest decodeResponse request
                   (Responds StatusOK reply_body None) offline
                 = (mkChatRequest "llama2" [hello] (Some false)
                      EmptyString EmptyString,
                    log offline DebugLevel "forwarding request to upstream",
                    Ok reply_ok)) by (vm_compute; reflexivity).
  destruct (nonstreaming_reply_despite_recorder_error decodeResponse
              _ _ _ _ _ _ Hfwd) as (w2 & res & Hrun & Hhandled).
  assert (Hres : ∃ e, res = Err e).
  { vm_compute in Hrun. injection Hrun as _ <-. eexists. reflexivity. }
  destruct Hres as [e ->].
  eexists _, _, w2, e. split; [exact Hfwd|]. split; [exact Hrun|].
  exact Hhandled.
Defined.

(** A storage failure, not a missing node, is answered with 404. *)
Lemma handleGetNode_any_error_not_found_witness :
  "abc" ≠ EmptyString
  ∧ Get RequestCtx (storer offline) "abc"
    = Err (ErrMessage "database is locked")
  ∧ handleGetNode "abc" offline
    = JSON StatusNotFound
      ("{" +:+ quoted "error" +:+ ":" +:+ quoted "node not found" +:+ "}").
Proof.
  split; [discriminate|]. split; [reflexivity|].
  apply (handleGetNode_any_error_not_found "abc" offline
           (ErrMessage "database is locked")).
  - discriminate.
  - reflexivity.
Defined.

(** The empty parameter is refused before the store is asked. *)
Example handleGetNode_empty_parameter :
  handleGetNode EmptyString offline
  = JSON StatusBadRequest
      ("{" +:+ quoted "error" +:+ ":" +:+ quoted "hash parameter required"
       +:+ "}").
Proof. reflexivity. Qed.

(** A missing node in the in-memory store. *)
Example handleGetNode_missing :
  handleGetNode "nonexistent" empty_memory
  = JSON StatusNotFound
      ("{" +:+ quoted "error" +:+ ":" +:+ quoted "node not found" +:+ "}").
Proof. reflexivity. Qed.

(** The client leaves after the first line of the ragged stream; the
    turn is recorded all the same, with the whole reply. *)
Example streaming_disconnect_sample :
  ∃ h, handleStreamingChat decodeChunk request
         (Responds StatusOK ragged_body None) (Some 1%nat) empty_memory
       = Returns h
       ∧ Body (reply h) = [line1 +:+ nl]
       ∧ recorded h
         = [(Background, request,
             mkChatResponse "llama2" "0001-01-01T00:00:00Z"
               (mkMessage "assistant" "Hi there" []) true 0 0 0 0 2 0 [])].
Proof.
  destruct (handleStreamingChat_streams decodeChunk request ragged_body
              None (Some 1%nat) empty_memory) as (w' & Hrun).
  eexists. split; [exact Hrun|]. cbn [reply Body recorded].
  rewrite scanned_received.
  split; vm_compute; reflexivity.
Qed.

(** The canonical encoding the hasher sees for a message node. *)
Example Marshal_message_sample :
  Marshal (messageContent "llama2" hello)
  = Some ("{" +:+ quoted "content" +:+ ":" +:+ quoted "Hello" +:+ ","
          +:+ quoted "model" +:+ ":" +:+ quoted "llama2" +:+ ","
          +:+ quoted "role" +:+ ":" +:+ quoted "user" +:+ ","
          +:+ quoted "type" +:+ ":" +:+ quoted "message" +:+ "}").
Proof. vm_compute. reflexivity. Qed.

End Instances.

(** * Further properties of the code *)

(** ** Log previews *)

Section Truncate.
Import Endpoints.

Lemma replaceNewlines_length (s : string) :
  String.length (replaceNewlines s) = String.length s.
Proof. induction s as [|c s IH]; cbn; [reflexivity|]. rewrite IH. reflexivity. Qed.

Lemma replaceNewlines_clean (s : string) :
  occurs LF (replaceNewlines s) = false.
Proof.
  induction s as [|c s IH]; [reflexivity|].
  cbn [replaceNewlines occurs].
  destruct (decide (c = LF)) as [->|Hc].
  - destruct (decide (" "%char = LF)) as [Heq|_]; [discriminate Heq|exact IH].
  - destruct (decide (c = LF)); [contradiction|exact IH].
Qed.

Lemma substring_prefix_length (n : nat) (s : string) :
  String.length (substring 0 n s) = Nat.min n (String.length s).
Proof.
  revert s. induction n as [|n IH]; intros [|c s]; cbn; try reflexivity.
  rewrite IH. reflexivity.
Qed.

Lemma occurs_substring_prefix (c : ascii) (n : nat) (s : string) :
  occurs c s = false → occurs c (substring 0 n s) = false.
Proof.
  revert s. induction n as [|n IH]; intros [|c' s]; cbn; try reflexivity.
  destruct (decide (c' = c)); [discriminate|]. apply IH.
Qed.

Lemma occurs_append (c : ascii) (s t : string) :
  occurs c (s +:+ t) = occurs c s || occurs c t.
Proof.
  induction s as [|c' s IH]; [reflexivity|].
  rewrite append_cons. cbn [occurs].
  destruct (decide (c' = c)); [reflexivity|exact IH].
Qed.

(** X1: [truncate] panics exactly when the bound is negative.
    Otherwise its result holds no newline (each is replaced by a
    space); a string of at most [maxLen] bytes comes back whole, and a
    longer one is cut to its first [maxLen] bytes followed by three
    dots, so the result has [maxLen + 3] bytes, which is more than the
    input had when that was only one or two bytes over the bound. *)
Theorem truncate_one_line_bounded (s : string) (maxLen : Z) :
  match truncate s maxLen with
  | Panics _ => maxLen < 0
  | Returns t =>
      0 <= maxLen
      ∧ occurs LF t = false
      ∧ (Z.of_nat (String.length s) <= maxLen → t = replaceNewlines s)
      ∧ (maxLen < Z.of_nat (String.length s) →
         t = substring 0 (Z.to_nat maxLen) (replaceNewlines s) +:+ "..."
         ∧ Z.of_nat (String.length t) = maxLen + 3)
  end.
Proof.
  unfold truncate. rewrite replaceNewlines_length.
  destruct (Z.leb_spec (Z.of_nat (String.length s)) maxLen) as [Hle|Hgt].
  - split; [lia|]. split; [apply replaceNewlines_clean|].
    split; [reflexivity|lia].
  - destruct (Z.ltb_spec maxLen 0) as [Hneg|Hpos]; [exact Hneg|].
    split; [exact Hpos|]. split.
    + rewrite occurs_append, occurs_substring_prefix
        by apply replaceNewlines_clean.
      reflexivity.
    + split; [lia|]. intros _. split; [reflexivity|].
      rewrite length_append, substring_prefix_length, replaceNewlines_length.
      cbn [String.length]. lia.
Qed.

End Truncate.

(** ** Nodes *)

Section Nodes.

Lemma marshal_input_None (content : value) (parentHash : string) :
  Marshal content = None → marshal_input (mkInput content parentHash) = None.
Proof. intros H. unfold marshal_input. cbn [input_Content]. rewrite H. reflexivity. Qed.

(** X2: [NewNode] panics exactly when [json.Marshal] rejects the
    content. Otherwise the node carries the content unchanged and the
    parent's hash (none for a root), and its hash can be checked from
    the node alone: [computeHash] on the returned node gives the hash
    stored in it. *)
Theorem NewNode_panics_iff_unencodable (content : value)
    (parent : option Node) :
  match NewNode content parent with
  | Panics _ => Marshal content = None
  | Returns n =>
      is_Some (Marshal content)
      ∧ Merkle.Content n = content
      ∧ ParentHash n = Hash <$> parent
      ∧ computeHash n = Returns (Hash n)
  end.
Proof.
  destruct (Marshal content) as [c|] eqn:Hc.
  - destruct (NewNode_returns content parent) as (n & -> & H1 & H2 & H3).
    { rewrite Hc. eauto. }
    split; [eauto|]. auto.
  - unfold NewNode, computeHash. cbn [Merkle.Content ParentHash].
    rewrite marshal_input_None by exact Hc. reflexivity.
Qed.

End Nodes.

(** ** The recorder on a refusing store *)

Section RecorderFailure.
Context {S : Type} `{!Storer S}.

Lemma last_or_parent (A : Type) (l : list A) (x : A) (parent : option A) :
  match last (x :: l) with
  | Some n => Some n
  | None => parent
  end
  = match last l with
    | Some n => Some n
    | None => Some x
    end.
Proof.
  destruct l as [|y l]; [reflexivity|].
  rewrite last_cons_cons.
  destruct (last (y :: l)) eqn:Hl; [reflexivity|].
  apply last_None in Hl. discriminate.
Qed.

(** The loop over the messages makes the puts of the message nodes up
    to the first refusal. *)
Lemma storeMessages_putAll (ctx : Context) (model : string)
    (msgs : list Message) (parent : option Node) (w : World S) :
  ∃ w', storeMessages ctx model msgs parent w
        = Returns (w',
            match (putAll ctx (storer w) (messageNodes model msgs parent)).2 with
            | Some e => Err (ErrWrap "storing message node" e)
            | None => Ok (match last (messageNodes model msgs parent) with
                          | Some n => Some n
                          | None => parent
                          end)
            end)
        ∧ storer w'
          = (putAll ctx (storer w) (messageNodes model msgs parent)).1.
Proof.
  revert parent w. induction msgs as [|msg rest IH]; intros parent w.
  - exists w. split; reflexivity.
  - destruct (messageNodes_cons model msg rest parent)
      as (n & Hn & -> & _).
    cbn [storeMessages putAll]. rewrite Hn.
    destruct (Put ctx (storer w) (Some n)) as [s' [e|]] eqn:HPut.
    + eexists. split; reflexivity.
    + destruct (IH (Some n)
                  (log (mkWorld s' (logs w)) DebugLevel "stored message in DAG"))
        as (w' & Hrun & Hst).
      exists w'. rewrite Hrun. split; [|exact Hst].
      cbn [storer log].
      destruct (putAll ctx s' (messageNodes model rest (Some n))) as [s2 [e|]];
        [reflexivity|].
      cbn [snd]. rewrite last_or_parent. reflexivity.
Qed.

(** X3: whatever the store does, [storeConversationTurn] returns (it
    never panics) after making the puts of the turn's nodes in order up
    to the first one the store refuses: no later node is put, and what
    was put before stays. It returns the refusing put's error wrapped
    as [storing message node] when a message node was refused and as
    [storing response node] when the head was, and the head's hash
    when no put was refused. *)
Theorem storeConversationTurn_stops_at_first_refusal (ctx : Context)
    (req : ChatRequest) (resp : ChatResponse) (w : World S) :
  ∃ w',
    storeConversationTurn ctx req resp w
    = Returns (w',
        match (putAll ctx (storer w)
                 (messageNodes (Model req) (Messages req) None)).2 with
        | Some e => Err (ErrWrap "storing message node" e)
        | None =>
            match (putAll ctx (storer w) (turnNodes req resp)).2 with
            | Some e => Err (ErrWrap "storing response node" e)
            | None => Ok (from_option Hash EmptyString
                            (last (turnNodes req resp)))
            end
        end)
    ∧ storer w' = (putAll ctx (storer w) (turnNodes req resp)).1.
Proof.
  unfold turnNodes, storeConversationTurn.
  set (nodes := messageNodes (Model req) (Messages req) None).
  destruct (NewNode_returns (responseContent resp) (last nodes)
              (responseContent_expressible resp))
    as (head & Hhead & _).
  rewrite Hhead. rewrite putAll_app.
  destruct (storeMessages_putAll ctx (Model req) (Messages req) None w)
    as (w1 & Hrun & Hst1).
  fold nodes in Hrun, Hst1. rewrite Hrun.
  destruct (putAll ctx (storer w) nodes) as [s1 [e|]] eqn:Hmsgs;
    cbn [fst snd] in *.
  - exists w1. split; [reflexivity|exact Hst1].
  - assert (Hparent : match last nodes with
                      | Some n => Some n
                      | None => None
                      end = last nodes) by (destruct (last nodes); reflexivity).
    rewrite Hparent, Hhead. cbn [putAll]. rewrite Hst1.
    destruct (Put ctx s1 (Some head)) as [s2 [e|]] eqn:HPut; cbn [fst snd].
    + eexists. split; reflexivity.
    + rewrite last_snoc. eexists. split; reflexivity.
Qed.

End RecorderFailure.

(** ** What a turn's nodes depend on *)

Section ContentAddressing.
Context {S : Type} `{!Storer S}.

Lemma storeMessages_spoken (ctx : Context) (model : string)
    (msgs msgs' : list Message) (parent : option Node) (w : World S) :
  map spoken msgs = map spoken msgs' →
  storeMessages ctx model msgs parent w
  = storeMessages ctx model msgs' parent w.
Proof.
  revert msgs' parent w.
  induction msgs as [|msg rest IH]; intros [|msg' rest'] parent w Heq;
    try discriminate Heq; [reflexivity|].
  cbn [map] in Heq. unfold spoken at 1 3 in Heq.
  injection Heq as Hrole Hcontent Htl.
  cbn [storeMessages].
  assert (Hc : messageContent model msg = messageContent model msg').
  { unfold messageContent. rewrite Hrole, Hcontent. reflexivity. }
  rewrite Hc.
  destruct (NewNode (messageContent model msg') parent) as [n|m];
    [|reflexivity].
  destruct (Put ctx (storer w) (Some n)) as [s' [e|]]; [reflexivity|].
  apply IH. exact Htl.
Qed.

(** X4: the recorder reads of a turn only the request's model, the
    role and content of each message, and the response's role, content,
    model and five metrics: on two turns that agree on these it makes
    the same puts and returns the same result on every store, whatever
    the images, the stream flag, the format, the keep-alive, the
    response's creation time, load duration, done flag and context
    are. *)
Theorem storeConversationTurn_reads_only_recorded_fields (ctx : Context)
    (req req' : ChatRequest) (resp resp' : ChatResponse) (w : World S) :
  Model req = Model req' →
  map spoken (Messages req) = map spoken (Messages req') →
  spoken (resp_Message resp) = spoken (resp_Message resp') →
  resp_Model resp = resp_Model resp' →
  (TotalDuration resp, PromptEvalCount resp, PromptEvalDuration resp,
   EvalCount resp, EvalDuration resp)
  = (TotalDuration resp', PromptEvalCount resp', PromptEvalDuration resp',
     EvalCount resp', EvalDuration resp') →
  storeConversationTurn ctx req resp w
  = storeConversationTurn ctx req' resp' w.
Proof.
  intros Hmodel Hmsgs Hmsg Hrmodel Hmetrics.
  unfold spoken in Hmsg. injection Hmsg as Hrole Hcontent.
  injection Hmetrics as H1 H2 H3 H4 H5.
  unfold storeConversationTurn.
  rewrite (storeMessages_spoken ctx (Model req) _ _ None w Hmsgs).
  rewrite Hmodel.
  assert (Hc : responseContent resp = responseContent resp').
  { unfold responseContent.
    rewrite Hrole, Hcontent, Hrmodel, H1, H2, H3, H4, H5. reflexivity. }
  rewrite Hc. reflexivity.
Qed.

End ContentAddressing.

Section Branching.

Lemma messageNodes_app (model : string) (msgs more : list Message)
    (parent : option Node) :
  messageNodes model (msgs ++ more) parent
  = messageNodes model msgs parent
    ++ messageNodes model more
         (match last (messageNodes model msgs parent) with
          | Some n => Some n
          | None => parent
          end).
Proof.
  revert parent. induction msgs as [|msg rest IH]; intros parent;
    [reflexivity|].
  destruct (messageNodes_cons model msg (rest ++ more) parent)
    as (n & Hn & Hcons & _).
  change ((msg :: rest) ++ more) with (msg :: (rest ++ more)).
  rewrite Hcons.
  destruct (messageNodes_cons model msg rest parent)
    as (n' & Hn' & -> & _).
  rewrite Hn in Hn'. injection Hn' as <-.
  rewrite IH. rewrite last_or_parent. reflexivity.
Qed.

(** X5: a conversation that goes on shares its beginning: when a
    request repeats the messages of an earlier request of the same
    model and adds to them, the nodes of its turn begin with the
    message nodes of the earlier turn, and two responses to one request
    give two heads below the same parent, the nodes before them being
    the same. *)
Theorem turnNodes_share_prefix (req req' : ChatRequest)
    (resp resp' : ChatResponse) (more : list Message) :
  Model req' = Model req →
  Messages req' = Messages req ++ more →
  let shared := messageNodes (Model req) (Messages req) None in
  take (length (Messages req)) (turnNodes req' resp') = shared
  ∧ take (length (Messages req)) (turnNodes req resp) = shared
  ∧ (more = [] →
     ∃ head head',
       turnNodes req resp = shared ++ [head]
       ∧ turnNodes req' resp' = shared ++ [head']
       ∧ ParentHash head = ParentHash head'
       ∧ Merkle.Content head = responseContent resp
       ∧ Merkle.Content head' = responseContent resp').
Proof.
  intros Hmodel Hmsgs shared.
  assert (Hlen : length shared = length (Messages req))
    by apply messageNodes_length.
  assert (Hturn : ∀ r rs, ∃ head,
             turnNodes r rs = messageNodes (Model r) (Messages r) None ++ [head]
             ∧ Merkle.Content head = responseContent rs
             ∧ ParentHash head
               = Hash <$> last (messageNodes (Model r) (Messages r) None)).
  { intros r rs. unfold turnNodes.
    destruct (NewNode_returns (responseContent rs)
                (last (messageNodes (Model r) (Messages r) None))
                (responseContent_expressible rs))
      as (head & -> & Hc & Hp & _).
    exists head. auto. }
  destruct (Hturn req resp) as (head & Hn & Hc & Hp).
  destruct (Hturn req' resp') as (head' & Hn' & Hc' & Hp').
  rewrite Hmodel, Hmsgs, messageNodes_app in Hn'. fold shared in Hn, Hn'.
  split; [|split].
  - rewrite Hn', <- Hlen, <- app_assoc. apply take_app_length.
  - rewrite Hn, <- Hlen. apply take_app_length.
  - intros ->. exists head, head'.
    rewrite Hmodel, Hmsgs, app_nil_r in Hp'.
    cbn [messageNodes] in Hn'. rewrite app_nil_r in Hn'.
    fold shared in Hp, Hp'.
    split; [exact Hn|]. split; [exact Hn'|].
    split; [congruence|]. auto.
Qed.

End Branching.

(** ** The chat route as a whole *)

Section NonStreamingOutcomes.
Context {S : Type} `{!Storer S}.
Variable unmarshalResponse : string → option ChatResponse.

Lemma forwardRequest_forces_plain (req : ChatRequest) (up : Upstream)
    (w : World S) :
  (forwardRequest unmarshalResponse req up w).1.1
  = mkChatRequest (Model req) (Messages req) (Some false)
      (Format req) (KeepAlive req)
  ∧ storer (forwardRequest unmarshalResponse req up w).1.2 = storer w.
Proof.
  unfold forwardRequest.
  destruct up as [e|e|e|code body [e|]]; try (split; reflexivity).
  destruct (negb (Z.eqb code StatusOK)); [split; reflexivity|].
  destruct (unmarshalResponse body); split; reflexivity.
Qed.

Lemma forwardRequest_Ok_iff (req : ChatRequest) (up : Upstream)
    (w : World S) (resp : ChatResponse) :
  (forwardRequest unmarshalResponse req up w).2 = Ok resp
  ↔ ∃ body, up = Responds StatusOK body None
            ∧ unmarshalResponse body = Some resp.
Proof.
  unfold forwardRequest. split.
  - destruct up as [e|e|e|code body [e|]]; try discriminate.
    destruct (Z.eqb_spec code StatusOK) as [->|Hne]; [|discriminate].
    cbn [negb]. destruct (unmarshalResponse body) eqn:Hb; [|discriminate].
    intros [= ->]. eauto.
  - intros (body & -> & Hb).
    change (negb (Z.eqb StatusOK StatusOK)) with false. cbv iota.
    rewrite Hb. reflexivity.
Qed.

(** The non-streaming handler: what it returns in each of its two
    cases. *)
Lemma handleNonStreamingChat_cases (req : ChatRequest) (up : Upstream)
    (w : World S) :
  ∃ h, handleNonStreamingChat unmarshalResponse req up w = Returns h
       ∧ ((∃ body resp,
             up = Responds StatusOK body None
             ∧ unmarshalResponse body = Some resp
             ∧ reply h = JSON StatusOK (marshal_ChatResponse resp)
             ∧ recorded h
               = [(RequestCtx,
                   mkChatRequest (Model req) (Messages req) (Some false)
                     (Format req) (KeepAlive req),
                   resp)])
          ∨ ((¬ ∃ body resp, up = Responds StatusOK body None
                             ∧ unmarshalResponse body = Some resp)
             ∧ reply h
               = JSON StatusBadGateway
                   ("{" +:+ quoted "error" +:+ ":"
                    +:+ quoted "upstream request failed" +:+ "}")
             ∧ recorded h = []
             ∧ storer (world h) = storer w)).
Proof.
  unfold handleNonStreamingChat.
  pose proof (forwardRequest_forces_plain req up w) as [Hreq Hst].
  pose proof (forwardRequest_Ok_iff req up w) as Hok.
  destruct (forwardRequest unmarshalResponse req up w) as [[req' w1] [resp|e]];
    cbn [fst snd] in *.
  - destruct (proj1 (Hok resp) eq_refl) as (body & Hup & Hb).
    destruct (storeConversationTurn_returns RequestCtx req' resp
                (log w1 DebugLevel "received response from upstream"))
      as (w3 & res & ->).
    eexists. split; [reflexivity|]. left. exists body, resp.
    cbn [reply recorded]. rewrite Hreq. auto.
  - eexists. split; [reflexivity|]. right. cbn [reply recorded world].
    split.
    + intros (body & resp & Hup & Hb).
      assert (Err e = Ok resp) as Habs; [|discriminate Habs].
      apply Hok. eauto.
    + split; [reflexivity|]. split; [reflexivity|exact Hst].
Qed.

(** X6: the non-streaming handler returns on every upstream outcome
    and backend. It answers 200 with the upstream's decoded response,
    after one recorder call on the request with its stream flag forced
    to false, exactly when the upstream answered 200 with a body that
    could be read and decoded; in every other case (also when the
    upstream answered with another status, which is not passed on
    here) it answers 502 with the error [upstream request failed],
    records nothing and leaves the store as it was. *)
Theorem nonstreaming_answers_200_or_502 (req : ChatRequest) (up : Upstream)
    (w : World S) :
  ∃ h, handleNonStreamingChat unmarshalResponse req up w = Returns h
       ∧ (Status (reply h) = StatusOK
          ↔ ∃ body resp, up = Responds StatusOK body None
                         ∧ unmarshalResponse body = Some resp)
       ∧ (∀ body resp,
            up = Responds StatusOK body None →
            unmarshalResponse body = Some resp →
            reply h = JSON StatusOK (marshal_ChatResponse resp)
            ∧ recorded h
              = [(RequestCtx,
                  mkChatRequest (Model req) (Messages req) (Some false)
                    (Format req) (KeepAlive req),
                  resp)])
       ∧ (Status (reply h) ≠ StatusOK →
          reply h
          = JSON StatusBadGateway
              ("{" +:+ quoted "error" +:+ ":"
               +:+ quoted "upstream request failed" +:+ "}")
          ∧ recorded h = []
          ∧ storer (world h) = storer w).
Proof.
  destruct (handleNonStreamingChat_cases req up w)
    as (h & Hrun & [(body & resp & Hup & Hb & Hreply & Hrec)
                   |(Hnot & Hreply & Hrec & Hst)]).
  - exists h. split; [exact Hrun|]. rewrite Hreply. cbn [JSON Status].
    split; [split; [eauto|reflexivity]|].
    split; [|intros Hne; contradiction Hne; reflexivity].
    intros body' resp' Hup' Hb'. rewrite Hup in Hup'.
    injection Hup' as <-. rewrite Hb in Hb'. injection Hb' as <-. auto.
  - exists h. split; [exact Hrun|]. rewrite Hreply. cbn [JSON Status].
    split; [split; [discriminate|intros Hex; contradiction]|].
    split; [|auto].
    intros body resp Hup Hb. exfalso. apply Hnot. eauto.
Qed.

End NonStreamingOutcomes.

Section StreamedText.
Context {S : Type} `{!Storer S}.
Variable unm : string → option StreamChunk.

Lemma heard_cons_skip (line : string) (tokens : list string) :
  chunkOf unm line = None → heard unm (line :: tokens) = heard unm tokens.
Proof. intros H. unfold heard. cbn [omap list_omap]. rewrite H. reflexivity. Qed.

Lemma heard_cons_chunk (line : string) (tokens : list string)
    (chunk : StreamChunk) :
  chunkOf unm line = Some chunk →
  heard unm (line :: tokens)
  = Llm.Content (chunk_Message chunk) +:+ heard unm tokens.
Proof. intros H. unfold heard. cbn [omap list_omap]. rewrite H. reflexivity. Qed.

Lemma heard_app (l1 l2 : list string) :
  heard unm (l1 ++ l2) = heard unm l1 +:+ heard unm l2.
Proof.
  induction l1 as [|line l1 IH]; [reflexivity|].
  change ((line :: l1) ++ l2) with (line :: (l1 ++ l2)).
  destruct (chunkOf unm line) as [chunk|] eqn:Hc.
  - rewrite !(heard_cons_chunk _ _ chunk Hc), IH, append_assoc. reflexivity.
  - rewrite !heard_cons_skip by exact Hc. exact IH.
Qed.

(** The accumulator holds the text of the chunks parsed so far. *)
Lemma loop_content (tokens : list string) (st : Streaming S) :
  fullContent (fold_left (streamLine unm) tokens st)
  = fullContent st +:+ heard unm tokens.
Proof.
  revert st. induction tokens as [|line tokens IH]; intros st.
  - cbn [fold_left]. unfold heard. cbn. rewrite append_empty_r. reflexivity.
  - cbn [fold_left]. rewrite IH.
    destruct (chunkOf unm line) as [chunk|] eqn:Hc.
    + rewrite (streamLine_chunk unm st line chunk Hc). cbn [fullContent].
      rewrite (heard_cons_chunk _ _ chunk Hc), append_assoc. reflexivity.
    + destruct (streamLine_skip unm st line Hc) as (-> & _).
      rewrite heard_cons_skip by exact Hc. reflexivity.
Qed.

(** Tokens without a finished chunk leave the final response alone. *)
Lemma loop_unfinished (tokens : list string) (st : Streaming S) :
  (∀ l c, l ∈ tokens → chunkOf unm l = Some c → chunk_Done c = false) →
  finalResp (fold_left (streamLine unm) tokens st) = finalResp st.
Proof.
  revert st. induction tokens as [|line tokens IH]; intros st Hnone;
    [reflexivity|].
  cbn [fold_left]. rewrite IH.
  - destruct (chunkOf unm line) as [chunk|] eqn:Hc.
    + rewrite (streamLine_chunk unm st line chunk Hc). cbn [finalResp].
      rewrite (Hnone line chunk (list_elem_of_here _ _) Hc). reflexivity.
    + destruct (streamLine_skip unm st line Hc) as (_ & -> & _). reflexivity.
  - intros l c Hl. apply Hnone. apply list_elem_of_further. exact Hl.
Qed.

Lemma loop_last_done (pre post : list string) (line : string)
    (chunk : StreamChunk) (st : Streaming S) :
  chunkOf unm line = Some chunk → chunk_Done chunk = true →
  (∀ l c, l ∈ post → chunkOf unm l = Some c → chunk_Done c = false) →
  finalResp (fold_left (streamLine unm) (pre ++ line :: post) st)
  = Some (materialized (fullContent st +:+ heard unm (pre ++ [line])) chunk).
Proof.
  intros Hc Hdone Hpost.
  rewrite fold_left_app. cbn [fold_left].
  rewrite loop_unfinished by exact Hpost.
  rewrite (streamLine_chunk unm _ line chunk Hc). cbn [finalResp].
  rewrite Hdone, loop_content, heard_app, (heard_cons_chunk _ _ chunk Hc).
  unfold heard at 2. cbn [omap list_omap map joined foldr].
  rewrite append_empty_r, append_assoc. reflexivity.
Qed.

(** X7: what the streaming handler records is the text up to the last
    finished chunk: when the last parsed chunk with [done] set sits on
    the token [line], the one recorder call carries the request as it
    came (stream flag included) and a response whose content is the
    concatenation of the contents of all chunks parsed up to and
    including that one, whose model, creation time and metrics are that
    chunk's; chunks that follow it reach the client but not the
    record. *)
Theorem streaming_records_text_up_to_done (req : ChatRequest)
    (body : string) (readErr : option error) (accepts : option nat)
    (w : World S) (pre post : list string) (line : string)
    (chunk : StreamChunk) :
  (scan body readErr).1 = pre ++ line :: post →
  chunkOf unm line = Some chunk →
  chunk_Done chunk = true →
  (∀ l c, l ∈ post → chunkOf unm l = Some c → chunk_Done c = false) →
  ∃ h,
    handleStreamingChat unm req (Responds StatusOK body readErr) accepts w
    = Returns h
    ∧ recorded h
      = [(Background, req, materialized (heard unm (pre ++ [line])) chunk)]
    ∧ Body (reply h)
      = delivered accepts (framed unm (pre ++ line :: post)).
Proof.
  intros Hscan Hc Hdone Hpost.
  destruct (handleStreamingChat_streams unm req body readErr accepts w)
    as (w' & Hrun).
  eexists. split; [exact Hrun|]. cbn [recorded reply Body].
  rewrite scanned_received, Hscan. split; [|reflexivity].
  unfold scanned. rewrite Hscan.
  rewrite (loop_last_done pre post line chunk _ Hc Hdone Hpost).
  reflexivity.
Qed.

(** The streaming handler on any upstream outcome. *)
Lemma handleStreamingChat_summary (req : ChatRequest) (up : Upstream)
    (accepts : option nat) (w : World S) :
  ∃ h, handleStreamingChat unm req up accepts w = Returns h
       ∧ (length (recorded h) <= 1)%nat
       ∧ (recorded h = [] → storer (world h) = storer w)
       ∧ (∀ call, call ∈ recorded h → call.1.2 = req).
Proof.
  destruct up as [e|e|e|code body readErr].
  1-3: (eexists; split; [reflexivity|]; cbn [recorded world length];
        split; [lia|]; split; [reflexivity|]; intros c Hc; inversion Hc).
  destruct (decide (code = StatusOK)) as [->|Hcode].
  - unfold handleStreamingChat, streamWriter.
    change (negb (Z.eqb StatusOK StatusOK)) with false. cbv iota.
    destruct (scan body readErr) as [tokens scanErr].
    set (st := fold_left (streamLine unm) tokens _).
    destruct (finishStream_returns req scanErr st) as (w1 & Hfin).
    destruct (Hfin st eq_refl eq_refl eq_refl) as [-> Hstore].
    eexists. split; [reflexivity|]. cbn [recorded world during].
    split; [destruct (finalResp st); cbn [length]; lia|].
    split.
    + destruct (finalResp st) eqn:Hf; [discriminate|]. intros _.
      rewrite (Hstore eq_refl). unfold st. rewrite loop_storer. reflexivity.
    + intros call Hcall. destruct (finalResp st); [|inversion Hcall].
      apply list_elem_of_singleton in Hcall as ->. reflexivity.
  - rewrite (handleStreamingChat_error_status unm) by exact Hcode.
    eexists. split; [reflexivity|]. cbn [recorded world length].
    split; [lia|]. split; [reflexivity|]. intros c Hc. inversion Hc.
Qed.

End StreamedText.

Section ChatRoute.
Import Endpoints.
Context {S : Type} `{!Storer S}.
Variable unmarshalRequest : string → option ChatRequest.
Variable unmarshalChunk : string → option StreamChunk.
Variable unmarshalResponse : string → option ChatResponse.

(** X8: [handleChat] answers every request, whatever the body, the
    upstream, the client and the backend do, and never panics. A body
    that does not decode gets 400 with the error [invalid request
    body]. The recorder is invoked at most once, on the model and the
    messages of the decoded request; the store is written by the
    recorder only, so without an invocation it is as before. A request
    without a stream field is served as a stream. *)
Theorem handleChat_answers_and_records_at_most_once (body : string)
    (up : Upstream) (accepts : option nat) (w : World S) :
  ∃ h,
    handleChat unmarshalRequest unmarshalChunk unmarshalResponse
      body up accepts w = Returns h
    ∧ (length (recorded h) <= 1)%nat
    ∧ (recorded h = [] → storer (world h) = storer w)
    ∧ (∀ call, call ∈ recorded h →
         ∃ req, unmarshalRequest body = Some req
                ∧ Model call.1.2 = Model req
                ∧ Messages call.1.2 = Messages req)
    ∧ (unmarshalRequest body = None →
       reply h = JSON StatusBadRequest
                   ("{" +:+ quoted "error" +:+ ":"
                    +:+ quoted "invalid request body" +:+ "}")
       ∧ recorded h = [])
    ∧ (∀ req, unmarshalRequest body = Some req → Stream req = None →
         handleStreamingChat unmarshalChunk req up accepts
           (log w DebugLevel "received chat request") = Returns h).
Proof.
  unfold handleChat.
  destruct (unmarshalRequest body) as [req|] eqn:Hreq.
  - set (w1 := log w DebugLevel "received chat request").
    destruct (match Stream req with
              | Some stream => stream
              | None => true
              end) eqn:Hstream.
    + destruct (handleStreamingChat_summary unmarshalChunk req up accepts w1)
        as (h & Hrun & Hlen & Hst & Hcalls).
      exists h. split; [exact Hrun|]. split; [exact Hlen|].
      split; [exact Hst|].
      split.
      { intros call Hcall. exists req. rewrite (Hcalls call Hcall). auto. }
      split; [discriminate|].
      intros req' [= <-] _. exact Hrun.
    + destruct (handleNonStreamingChat_cases unmarshalResponse req up w1)
        as (h & Hrun & Hcases).
      exists h. split; [exact Hrun|].
      destruct Hcases as [(b & resp & _ & _ & _ & Hrec)|(_ & _ & Hrec & Hst)];
        rewrite Hrec; cbn [length].
      * split; [lia|]. split; [discriminate|].
        split.
        { intros call Hcall. apply list_elem_of_singleton in Hcall as ->.
          exists req. auto. }
        split; [discriminate|].
        intros req' [= <-] Hnone. rewrite Hnone in Hstream. discriminate.
      * split; [lia|]. split; [intros _; exact Hst|].
        split; [intros call Hcall; inversion Hcall|].
        split; [discriminate|].
        intros req' [= <-] Hnone. rewrite Hnone in Hstream. discriminate.
  - eexists. split; [reflexivity|]. cbn [recorded world reply length].
    split; [lia|]. split; [reflexivity|].
    split; [intros call Hcall; inversion Hcall|].
    split; [auto|]. discriminate.
Qed.

End ChatRoute.

(** ** The inspection endpoints *)

Section Histories.
Import Endpoints.
Context {S : Type} `{!Storer S} `{!Traverser S}.

(** The loop writes the messages from the back: it turns the ancestry
    round. *)
Lemma fillMessages_reverse (rest : list Node) (i : nat)
    (pre suf : list HistoryMessage) :
  length pre = length rest →
  fillMessages (i + length rest) i rest (pre ++ suf)
  = reverse (historyMessage <$> rest) ++ suf.
Proof.
  revert i pre suf. induction rest as [|node rest IH]; intros i pre suf Hlen.
  - destruct pre; [reflexivity|discriminate].
  - destruct (nil_or_length_pos pre) as [->|Hpos]; [discriminate|].
    destruct (exists_last (l := pre)) as (pre' & x & ->).
    { intros ->. cbn in Hpos. lia. }
    rewrite length_app in Hlen. cbn [length] in Hlen.
    assert (Hlen' : length pre' = length rest) by lia.
    cbn [fillMessages length].
    replace (i + Datatypes.S (length rest) - 1 - i)%nat
      with (length pre' + 0)%nat by lia.
    rewrite <- (app_assoc pre' [x] suf).
    rewrite insert_app_r. cbn [app insert list_insert].
    replace (i + Datatypes.S (length rest))%nat
      with (Datatypes.S i + length rest)%nat by lia.
    rewrite (IH (Datatypes.S i) pre' (historyMessage node :: suf) Hlen').
    rewrite fmap_cons, reverse_cons, <- app_assoc. reflexivity.
Qed.

Lemma buildHistory_unfold (ctx : Context) (hash : string) (w : World S) :
  buildHistory ctx hash w
  = match Ancestry ctx (storer w) hash with
    | Err e => Err e
    | Ok ancestry =>
        Ok (mkHistoryResponse (reverse (historyMessage <$> ancestry)) hash
              (Z.of_nat (length ancestry)))
    end.
Proof.
  unfold buildHistory. destruct (Ancestry ctx (storer w) hash) as [a|e];
    [|reflexivity].
  pose proof (fillMessages_reverse a 0 (replicate (length a) zeroMessage) []
                (length_replicate _ _)) as Hfill.
  rewrite app_nil_r in Hfill. cbn [Nat.add] in Hfill. rewrite Hfill.
  rewrite app_nil_r, length_reverse, length_fmap. reflexivity.
Qed.

Lemma historyMessage_hashes (l : list Node) :
  hm_Hash <$> (historyMessage <$> l) = Hash <$> l
  ∧ hm_ParentHash <$> (historyMessage <$> l) = ParentHash <$> l.
Proof.
  rewrite <- !list_fmap_compose. split; apply list_fmap_ext; intros _ n _;
    unfold compose, historyMessage; destruct (Merkle.Content n); reflexivity.
Qed.

(** X9: [buildHistory] returns the ancestry turned round: the messages
    are those of the nodes from the root to the requested node, oldest
    first, each with its node's hash and parent hash; the depth is the
    number of nodes on the path (a root has depth 1 here), the head
    hash is the requested hash as given, and an error of the store's
    [Ancestry] is handed on unchanged. *)
Theorem buildHistory_oldest_first (ctx : Context) (hash : string)
    (w : World S) :
  match Ancestry ctx (storer w) hash with
  | Err e => buildHistory ctx hash w = Err e
  | Ok ancestry =>
      ∃ history,
        buildHistory ctx hash w = Ok history
        ∧ hist_Messages history = reverse (historyMessage <$> ancestry)
        ∧ hm_Hash <$> hist_Messages history = reverse (Hash <$> ancestry)
        ∧ hm_ParentHash <$> hist_Messages history
          = reverse (ParentHash <$> ancestry)
        ∧ Depth history = Z.of_nat (length ancestry)
        ∧ HeadHash history = hash
  end.
Proof.
  rewrite buildHistory_unfold.
  destruct (Ancestry ctx (storer w) hash) as [a|e]; [|reflexivity].
  eexists. split; [reflexivity|]. cbn [hist_Messages Depth HeadHash].
  split; [reflexivity|].
  destruct (historyMessage_hashes a) as [Hh Hp].
  rewrite !fmap_reverse, Hh, Hp. auto.
Qed.

End Histories.

Section HistoryOfATurn.
Import Endpoints.
Context {S : Type} `{!Storer S} `{!Traverser S}.

Lemma historyMessage_message (n : Node) (model : string) (msg : Message) :
  Merkle.Content n = messageContent model msg →
  told (historyMessage n) = (Role msg, Llm.Content msg, model, None).
Proof.
  intros Hc. unfold told, historyMessage. rewrite Hc. unfold messageContent.
  cbn [hm_Role hm_Content hm_Model hm_Metadata]. unfold stringField.
  rewrite !map_filter_insert_not by (intros y; cbn; tauto).
  rewrite map_filter_singleton_False by (cbn; tauto).
  rewrite map_size_empty.
  rewrite (lookup_insert_ne _ "type" "role") by discriminate.
  rewrite lookup_insert_eq.
  rewrite (lookup_insert_ne _ "type" "content") by discriminate.
  rewrite (lookup_insert_ne _ "role" "content") by discriminate.
  rewrite lookup_insert_eq.
  rewrite (lookup_insert_ne _ "type" "model") by discriminate.
  rewrite (lookup_insert_ne _ "role" "model") by discriminate.
  rewrite (lookup_insert_ne _ "content" "model") by discriminate.
  rewrite lookup_singleton_eq.
  reflexivity.
Qed.

Lemma historyMessage_response (n : Node) (resp : ChatResponse) :
  Merkle.Content n = responseContent resp →
  told (historyMessage n)
  = (Role (resp_Message resp), Llm.Content (resp_Message resp),
     resp_Model resp, Some (metricsOf resp)).
Proof.
  intros Hc. unfold told, historyMessage. rewrite Hc. unfold responseContent.
  cbn [hm_Role hm_Content hm_Model hm_Metadata]. unfold stringField.
  rewrite !map_filter_insert_not by (intros y; cbn; tauto).
  rewrite map_filter_singleton_True by (cbn; repeat split; discriminate).
  rewrite map_size_singleton.
  rewrite (lookup_insert_ne _ "type" "role") by discriminate.
  rewrite lookup_insert_eq.
  rewrite (lookup_insert_ne _ "type" "content") by discriminate.
  rewrite (lookup_insert_ne _ "role" "content") by discriminate.
  rewrite lookup_insert_eq.
  rewrite (lookup_insert_ne _ "type" "model") by discriminate.
  rewrite (lookup_insert_ne _ "role" "model") by discriminate.
  rewrite (lookup_insert_ne _ "content" "model") by discriminate.
  rewrite lookup_insert_eq.
  reflexivity.
Qed.

Lemma told_messageNodes (model : string) (msgs : list Message)
    (parent : option Node) :
  (λ n, told (historyMessage n)) <$> messageNodes model msgs parent
  = (λ msg, (Role msg, Llm.Content msg, model, None)) <$> msgs.
Proof.
  revert parent. induction msgs as [|msg rest IH]; intros parent;
    [reflexivity|].
  destruct (messageNodes_cons model msg rest parent)
    as (n & _ & -> & Hc & _).
  rewrite !fmap_cons, IH, (historyMessage_message n model msg Hc).
  reflexivity.
Qed.

(** The metadata of history messages built from a turn encode. *)
Lemma marshal_told (m : HistoryMessage) :
  (hm_Metadata m = None ∨ ∃ resp, hm_Metadata m = Some (metricsOf resp)) →
  is_Some (marshal_HistoryMessage m).
Proof.
  intros Hmeta. unfold marshal_HistoryMessage.
  destruct Hmeta as [->|(resp & ->)]; [eauto|].
  destruct (decide (size (metricsOf resp) = 0%nat)); [eauto|].
  destruct (Marshal_map_expressible (metricsOf resp)) as [j ->]; [|eauto].
  unfold metricsOf. apply map_Forall_singleton.
  apply Marshal_map_expressible.
  repeat (apply map_Forall_insert_2; [eexists; reflexivity|]).
  apply map_Forall_empty.
Qed.

(** X10: the history of a recorded turn reads back what was recorded:
    when the store's [Ancestry] of a hash is the turn's chain (head
    first), [buildHistory] lists the request's messages in order, each
    with its role, its content and the request's model and no metadata,
    and then the response with its role, content and model and the five
    metrics as its only metadata; the stored [type] entry is dropped.
    The hashes and parent hashes are those of the turn's nodes, the
    depth is the number of messages plus one, and [handleGetHistory]
    serves it with status 200. *)
Theorem history_of_recorded_turn (req : ChatRequest) (resp : ChatResponse)
    (hash : string) (w : World S) :
  hash ≠ EmptyString →
  Ancestry RequestCtx (storer w) hash = Ok (reverse (turnNodes req resp)) →
  ∃ history body,
    buildHistory RequestCtx hash w = Ok history
    ∧ told <$> hist_Messages history
      = ((λ msg, (Role msg, Llm.Content msg, Model req, None))
           <$> Messages req)
        ++ [(Role (resp_Message resp), Llm.Content (resp_Message resp),
             resp_Model resp, Some (metricsOf resp))]
    ∧ hm_Hash <$> hist_Messages history = Hash <$> turnNodes req resp
    ∧ hm_ParentHash <$> hist_Messages history
      = ParentHash <$> turnNodes req resp
    ∧ Depth history = Z.of_nat (length (Messages req)) + 1
    ∧ HeadHash history = hash
    ∧ marshal_HistoryResponse history = Some body
    ∧ handleGetHistory hash w = JSON StatusOK body.
Proof.
  intros Hhash Hanc.
  set (history := mkHistoryResponse (historyMessage <$> turnNodes req resp)
                    hash (Z.of_nat (length (turnNodes req resp)))).
  assert (Hrun : buildHistory RequestCtx hash w = Ok history).
  { rewrite buildHistory_unfold, Hanc, fmap_reverse, reverse_involutive,
      length_reverse. reflexivity. }
  assert (Hmsgs : hist_Messages history = historyMessage <$> turnNodes req resp)
    by reflexivity.
  destruct (historyMessage_hashes (turnNodes req resp)) as [Hhashes Hparents].
  assert (Hdepth : Depth history = Z.of_nat (length (turnNodes req resp)))
    by reflexivity.
  assert (Hhead : HeadHash history = hash) by reflexivity.
  clearbody history. rewrite <- Hmsgs in Hhashes, Hparents.
  assert (Htold : told <$> hist_Messages history
            = ((λ msg, (Role msg, Llm.Content msg, Model req, None))
                 <$> Messages req)
              ++ [(Role (resp_Message resp), Llm.Content (resp_Message resp),
                   resp_Model resp, Some (metricsOf resp))]).
  { rewrite Hmsgs, <- list_fmap_compose. unfold turnNodes.
    destruct (NewNode_returns (responseContent resp)
                (last (messageNodes (Model req) (Messages req) None))
                (responseContent_expressible resp))
      as (head & -> & Hc & _).
    rewrite fmap_app. cbn [fmap list_fmap compose].
    change (list_fmap _ _ (told ∘ historyMessage))
      with (fmap (M := list) (λ n, told (historyMessage n))).
    rewrite told_messageNodes, (historyMessage_response head resp Hc).
    reflexivity. }
  assert (Hbody : is_Some (marshal_HistoryResponse history)).
  { unfold marshal_HistoryResponse.
    destruct (join_elems_is_Some
                (map marshal_HistoryMessage (hist_Messages history)))
      as [msgs ->]; [|eauto].
    apply Forall_forall. intros e He.
    apply list_elem_of_In, in_map_iff in He as (m & <- & Hm).
    apply list_elem_of_In in Hm.
    apply marshal_told.
    assert (Hin : told m ∈ told <$> hist_Messages history).
    { apply list_elem_of_fmap. exists m. split; [reflexivity|exact Hm]. }
    rewrite Htold in Hin. apply elem_of_app in Hin as [Hin|Hin].
    - apply list_elem_of_fmap in Hin as (msg & Heq & _).
      left. unfold told in Heq. congruence.
    - apply list_elem_of_singleton in Hin.
      right. exists resp. unfold told in Hin. congruence. }
  destruct Hbody as [body Hbody].
  exists history, body.
  split; [exact Hrun|]. split; [exact Htold|].
  split; [exact Hhashes|]. split; [exact Hparents|].
  split.
  { rewrite Hdepth. destruct (turnNodes_shape req resp)
      as (nodes & head & -> & Hlen & _).
    rewrite length_app, Hlen. cbn [length]. lia. }
  split; [exact Hhead|]. split; [exact Hbody|].
  unfold handleGetHistory.
  destruct (decide (hash = EmptyString)); [contradiction|].
  rewrite Hrun, Hbody. reflexivity.
Qed.

(** X11: [handleGetHistory] answers 400 for an empty hash without
    consulting the store, and for any other hash 404 with the error
    [node not found] whenever the store's [Ancestry] returns an error,
    whatever the error is (a storage failure as well as a missing
    node); it answers with another status exactly when [Ancestry]
    succeeds. *)
Theorem handleGetHistory_any_error_not_found (hash : string) (w : World S) :
  (hash = EmptyString →
   handleGetHistory hash w
   = JSON StatusBadRequest
       ("{" +:+ quoted "error" +:+ ":" +:+ quoted "hash parameter required"
        +:+ "}"))
  ∧ (hash ≠ EmptyString →
     (is_Some (match Ancestry RequestCtx (storer w) hash with
               | Err e => Some e
               | Ok _ => None
               end)
      ↔ Status (handleGetHistory hash w) = StatusNotFound)
     ∧ (Status (handleGetHistory hash w) = StatusNotFound →
        handleGetHistory hash w
        = JSON StatusNotFound
            ("{" +:+ quoted "error" +:+ ":" +:+ quoted "node not found"
             +:+ "}"))).
Proof.
  unfold handleGetHistory. split.
  - intros ->. reflexivity.
  - intros Hhash. destruct (decide (hash = EmptyString)); [contradiction|].
    rewrite buildHistory_unfold.
    destruct (Ancestry RequestCtx (storer w) hash) as [a|e].
    + assert (Hst : Status
                (match marshal_HistoryResponse
                         (mkHistoryResponse (reverse (historyMessage <$> a))
                            hash (Z.of_nat (length a))) with
                 | Some body => JSON StatusOK body
                 | None => encodingFailure
                 end) ≠ StatusNotFound).
      { destruct (marshal_HistoryResponse _); discriminate. }
      split; [|intros Habs; contradiction].
      split; [intros [x Hx]; discriminate Hx|intros Habs; contradiction].
    + split; [|reflexivity]. split; [reflexivity|eauto].
Qed.

End HistoryOfATurn.

Section HistoryList.
Import Endpoints.
Context {S : Type} `{!Storer S} `{!Traverser S}.

Lemma buildHistory_log (ctx : Context) (hash : string) (w : World S)
    (lvl : Level) (msg : string) :
  buildHistory ctx hash (log w lvl msg) = buildHistory ctx hash w.
Proof. reflexivity. Qed.

Lemma historyOf_storer (w w' : World S) (leaf : Node) :
  storer w' = storer w → historyOf w' leaf = historyOf w leaf.
Proof.
  intros Hst. unfold historyOf, buildHistory. rewrite Hst. reflexivity.
Qed.

(** The loop keeps the histories it could build, in the order of the
    leaves, and logs one warning for each of the others. *)
Lemma collectHistories_omap (leaves : list Node)
    (histories : list HistoryResponse) (w : World S) :
  (collectHistories leaves histories w).1
  = histories ++ omap (historyOf w) leaves
  ∧ storer (collectHistories leaves histories w).2 = storer w
  ∧ logs (collectHistories leaves histories w).2
    = logs w
      ++ replicate (length leaves - length (omap (historyOf w) leaves))
           (WarnLevel, "failed to build history for leaf")
  ∧ (length (omap (historyOf w) leaves) <= length leaves)%nat.
Proof.
  revert histories w. induction leaves as [|leaf rest IH]; intros histories w.
  - cbn. rewrite !app_nil_r. auto.
  - cbn [collectHistories omap list_omap length].
    assert (Hh : historyOf w leaf
                 = match buildHistory RequestCtx (Hash leaf) w with
                   | Ok history => Some history
                   | Err _ => None
                   end) by reflexivity.
    destruct (buildHistory RequestCtx (Hash leaf) w) as [history|e] eqn:Hb;
      rewrite Hh.
    + destruct (IH (histories ++ [history]) w) as (H1 & H2 & H3 & H4).
      rewrite H1, H2, H3, <- app_assoc. cbn [length app].
      split; [reflexivity|]. split; [reflexivity|].
      split; [reflexivity|lia].
    + set (w' := log w WarnLevel "failed to build history for leaf").
      destruct (IH histories w') as (H1 & H2 & H3 & H4).
      assert (Heq : omap (historyOf w') rest = omap (historyOf w) rest).
      { apply list_omap_ext, Forall_Forall2_diag, Forall_forall.
        intros x _. apply historyOf_storer. reflexivity. }
      rewrite Heq in H1, H3, H4. rewrite H1, H2, H3.
      split; [reflexivity|]. split; [reflexivity|].
      split; [|lia].
      unfold w'. cbn [logs log]. rewrite <- app_assoc. f_equal.
      change [(WarnLevel, "failed to build history for leaf")]
        with (replicate 1 (WarnLevel, "failed to build history for leaf")).
      rewrite <- replicate_add. f_equal. lia.
Qed.

(** X12: [handleListHistories] fails only when the store cannot list
    its leaves (500, [failed to get leaves]). Otherwise a leaf whose
    history cannot be built never fails the request: it is left out and
    logged with one warning, and the reply lists the histories of the
    remaining leaves in the order of the leaves, with [count] their
    number; the store is not written. *)
Theorem handleListHistories_skips_failed_leaves (w : World S) :
  match Leaves RequestCtx (storer w) with
  | Err _ =>
      handleListHistories w
      = (JSON StatusInternalServerError
           ("{" +:+ quoted "error" +:+ ":" +:+ quoted "failed to get leaves"
            +:+ "}"), w)
  | Ok leaves =>
      let histories := omap (historyOf w) leaves in
      (handleListHistories w).1
      = match join_elems (map marshal_HistoryResponse histories) with
        | Some hs =>
            JSON StatusOK
              ("{" +:+ quoted "count" +:+ ":"
               +:+ appendInt (Z.of_nat (length histories))
               +:+ "," +:+ quoted "histories" +:+ ":[" +:+ hs +:+ "]}")
        | None => encodingFailure
        end
      ∧ (length histories <= length leaves)%nat
      ∧ storer (handleListHistories w).2 = storer w
      ∧ logs (handleListHistories w).2
        = logs w ++ replicate (length leaves - length histories)
                      (WarnLevel, "failed to build history for leaf")
  end.
Proof.
  unfold handleListHistories.
  destruct (Leaves RequestCtx (storer w)) as [leaves|e]; [|reflexivity].
  cbv zeta.
  destruct (collectHistories_omap leaves [] w) as (H1 & H2 & H3 & H4).
  destruct (collectHistories leaves [] w) as [histories w'].
  cbn [fst snd app] in *. subst histories.
  split; [|auto].
  unfold marshal_histories.
  destruct (join_elems (map marshal_HistoryResponse (omap (historyOf w) leaves)));
    reflexivity.
Qed.

End HistoryList.

Section Stats.
Import Endpoints.
Context {S : Type} `{!Storer S} `{!Traverser S}.

Lemma marshal_stats (total roots leaves : Z) :
  Marshal (VMap {[ "total_nodes" := VInt total;
                   "root_count" := VInt roots;
                   "leaf_count" := VInt leaves ]})
  = Some ("{" +:+ quoted "leaf_count" +:+ ":" +:+ appendInt leaves
          +:+ "," +:+ quoted "root_count" +:+ ":" +:+ appendInt roots
          +:+ "," +:+ quoted "total_nodes" +:+ ":" +:+ appendInt total
          +:+ "}").
Proof.
  rewrite Marshal_VMap, !fmap_insert, map_fmap_singleton.
  cbn [Marshal].
  generalize (appendInt total) (appendInt roots) (appendInt leaves).
  intros a b c.
  transitivity
    (Some ("{" +:+ (quoted "leaf_count" +:+ ":" +:+ c
                    +:+ "," +:+ quoted "root_count" +:+ ":" +:+ b
                    +:+ "," +:+ quoted "total_nodes" +:+ ":" +:+ a)
           +:+ "}")).
  - vm_compute. reflexivity.
  - rewrite !append_assoc. reflexivity.
Qed.

(** X13: [handleDAGStats] asks the store for all nodes, the roots and
    the leaves, in this order, and answers 500 naming the first of the
    three that fails; when all succeed it answers 200 with the three
    counts in one JSON object whose keys come in sorted order:
    [leaf_count], [root_count], [total_nodes]. *)
Theorem handleDAGStats_counts_or_first_failure (w : World S) :
  handleDAGStats w
  = match List RequestCtx (storer w), Roots RequestCtx (storer w),
          Leaves RequestCtx (storer w) with
    | Err _, _, _ =>
        JSON StatusInternalServerError
          ("{" +:+ quoted "error" +:+ ":" +:+ quoted "failed to list nodes"
           +:+ "}")
    | Ok _, Err _, _ =>
        JSON StatusInternalServerError
          ("{" +:+ quoted "error" +:+ ":" +:+ quoted "failed to get roots"
           +:+ "}")
    | Ok _, Ok _, Err _ =>
        JSON StatusInternalServerError
          ("{" +:+ quoted "error" +:+ ":" +:+ quoted "failed to get leaves"
           +:+ "}")
    | Ok nodes, Ok roots, Ok leaves =>
        JSON StatusOK
          ("{" +:+ quoted "leaf_count" +:+ ":"
           +:+ appendInt (Z.of_nat (length leaves))
           +:+ "," +:+ quoted "root_count" +:+ ":"
           +:+ appendInt (Z.of_nat (length roots))
           +:+ "," +:+ quoted "total_nodes" +:+ ":"
           +:+ appendInt (Z.of_nat (length nodes)) +:+ "}")
    end.
Proof.
  unfold handleDAGStats.
  destruct (List RequestCtx (storer w)) as [nodes|e]; [|reflexivity].
  destruct (Roots RequestCtx (storer w)) as [roots|e]; [|reflexivity].
  destruct (Leaves RequestCtx (storer w)) as [leaves|e]; [|reflexivity].
  cbv zeta. rewrite marshal_stats. reflexivity.
Qed.

End Stats.

(** ** The merge command *)

Section MergeCommand.
Import Commands Commands.Mergecmder.
Context {D : Type} `{!Driver D}.

Lemma wrap64_small (z : Z) : - 2 ^ 63 <= z < 2 ^ 63 → wrap64 z = z.
Proof. intros Hz. unfold wrap64. rewrite Z.mod_small by lia. lia. Qed.

(** The counters of one source: every node is counted once. *)
Lemma putNodes_counts (ctx : Context) (nodes : list Node) (target t' : D)
    (a b a' b' : Z) :
  0 <= a → 0 <= b → a + b + Z.of_nat (length nodes) < 2 ^ 63 →
  putNodes ctx target nodes a b = (t', Ok (a', b')) →
  t' = foldl (λ t n, (driverPut ctx t n).1) target nodes
  ∧ a <= a' ∧ b <= b' ∧ a' + b' = a + b + Z.of_nat (length nodes).
Proof.
  revert target a b. induction nodes as [|n rest IH]; intros target a b Ha Hb Hsum.
  - cbn. intros [= <- <- <-]. repeat split; lia.
  - cbn [putNodes foldl length].
    destruct (driverPut ctx target n) as [t1 [isNew|e]]; [|discriminate].
    cbn [fst]. cbn [length] in Hsum.
    destruct isNew; rewrite wrap64_small by lia; intros Hrun;
      apply IH in Hrun; try lia;
      destruct Hrun as (-> & H1 & H2 & H3); repeat split; lia.
Qed.

Lemma allNodes_cons (src : Source) (rest : list Source) :
  allNodes (src :: rest) = nodesOf src ++ allNodes rest.
Proof. reflexivity. Qed.

(** The loop over the sources, when it ends without an error. *)
Lemma mergeSources_counts (ctx : Context) (sources : list Source)
    (target t' : D) (tn td tn' td' : Z) (out out' : list string) :
  0 <= tn → 0 <= td →
  tn + td + Z.of_nat (length (allNodes sources)) < 2 ^ 63 →
  mergeSources ctx target sources tn td out = (t', out', Ok (tn', td')) →
  ∃ counts,
    Forall2 (λ src c, ∃ nodes, opened src = Lists nodes
                               ∧ 0 <= c.1 ∧ 0 <= c.2
                               ∧ c.1 + c.2 = Z.of_nat (length nodes))
            sources counts
    ∧ t' = foldl (λ t n, (driverPut ctx t n).1) target (allNodes sources)
    ∧ out' = out ++ zip_with sourceLine sources counts
    ∧ tn' = tn + sumZ counts.*1
    ∧ td' = td + sumZ counts.*2.
Proof.
  revert target tn td out.
  induction sources as [|src rest IH]; intros target tn td out Htn Htd Hsum.
  - cbn. intros [= <- <- <- <-]. exists []. cbn.
    rewrite app_nil_r. repeat split; try lia. constructor.
  - cbn [mergeSources]. rewrite allNodes_cons, length_app in Hsum.
    unfold nodesOf in Hsum. rewrite allNodes_cons. unfold nodesOf at 1.
    destruct (opened src) as [e|e|nodes] eqn:Hopen; try discriminate.
    destruct (putNodes ctx target nodes 0 0) as [t1 [[srcNew srcDuped]|e]] eqn:Hput;
      [|discriminate].
    apply putNodes_counts in Hput as (-> & H1 & H2 & H3); try lia.
    rewrite !wrap64_small by lia.
    intros Hrun. apply IH in Hrun as (counts & Hall & -> & -> & -> & ->);
      try lia.
    exists ((srcNew, srcDuped) :: counts).
    split; [constructor; [exists nodes; cbn; repeat split; auto; lia|exact Hall]|].
    rewrite foldl_app. split; [reflexivity|].
    cbn [zip_with fmap list_fmap fst snd sumZ foldr].
    rewrite <- app_assoc. cbn [app].
    split; [reflexivity|]. fold (sumZ counts.*1). fold (sumZ counts.*2).
    split; lia.
Qed.

(** X14: a merge that returns no error has counted every node of every
    source once, as new or as already existing, as the target's [Put]
    told it: it prints one line per source, in the order of the command
    line, with two counts that add up to the number of nodes the source
    listed, and a summary line with the sums over the sources; the
    target has gone through the puts of all nodes in order. *)
Theorem merge_accounts_for_every_node (ctx : Context)
    (resolved : result string) (connect : string → result D)
    (sources : list Source) (tgt : option D) (ran : Ran) :
  run ctx resolved connect sources = (tgt, ran) →
  returned ran = None →
  Z.of_nat (length (allNodes sources)) < 2 ^ 63 →
  ∃ path target counts,
    resolved = Ok path
    ∧ connect path = Ok target
    ∧ Forall2 (λ src c, ∃ nodes, opened src = Lists nodes
                                 ∧ 0 <= c.1 ∧ 0 <= c.2
                                 ∧ c.1 + c.2 = Z.of_nat (length nodes))
              sources counts
    ∧ tgt = Some (foldl (λ t n, (driverPut ctx t n).1) target
                        (allNodes sources))
    ∧ stdout ran
      = zip_with sourceLine sources counts
        ++ [summaryLine (sumZ counts.*1) (Z.of_nat (length sources))
              (sumZ counts.*2) path].
Proof.
  unfold run. intros Hrun Hnone Hsum.
  destruct resolved as [path|e]; [|injection Hrun as <- <-; discriminate].
  destruct (connect path) as [target|e] eqn:Hconn;
    [|injection Hrun as <- <-; discriminate].
  destruct (mergeSources ctx target sources 0 0 [])
    as [[t' out'] [[tn' td']|e]] eqn:Hloop;
    [|injection Hrun as <- <-; discriminate].
  injection Hrun as <- <-.
  apply mergeSources_counts in Hloop as (counts & Hall & -> & -> & -> & ->);
    try lia.
  exists path, target, counts. cbn [stdout app].
  rewrite !Z.add_0_l. auto.
Qed.

Lemma putNodes_app (ctx : Context) (l1 l2 : list Node) (target : D)
    (a b : Z) :
  putNodes ctx target (l1 ++ l2) a b
  = match putNodes ctx target l1 a b with
    | (t', Ok (a', b')) => putNodes ctx t' l2 a' b'
    | (t', Err e) => (t', Err e)
    end.
Proof.
  revert target a b. induction l1 as [|n l1 IH]; intros target a b;
    [reflexivity|].
  cbn [app putNodes].
  destruct (driverPut ctx target n) as [t1 [[|]|e]]; [apply IH|apply IH|].
  reflexivity.
Qed.

Lemma mergeSources_app (ctx : Context) (l1 l2 : list Source) (target : D)
    (tn td : Z) (out : list string) :
  mergeSources ctx target (l1 ++ l2) tn td out
  = match mergeSources ctx target l1 tn td out with
    | (t', out', Ok (tn', td')) => mergeSources ctx t' l2 tn' td' out'
    | (t', out', Err e) => (t', out', Err e)
    end.
Proof.
  revert target tn td out.
  induction l1 as [|src l1 IH]; intros target tn td out; [reflexivity|].
  cbn [app mergeSources].
  destruct (opened src) as [e|e|nodes]; try reflexivity.
  destruct (putNodes ctx target nodes 0 0) as [t1 [[srcNew srcDuped]|e]];
    [apply IH|reflexivity].
Qed.

(** X15: the merge stops at the first failure and undoes nothing.
    When the sources before a failing one merge without error, the run
    over all sources prints their lines but no summary line, leaves in
    the target what their merge left there, does not touch the sources
    after the failing one, and returns the failure wrapped with what
    failed: the opening or the listing of the source with its path, or
    the put of a node with its hash (the nodes put before it stay). *)
Theorem merge_stops_at_first_failure (ctx : Context)
    (resolved : result string) (connect : string → result D)
    (merged rest : list Source) (bad : Source) (t1 : D) (ran1 : Ran) :
  run ctx resolved connect merged = (Some t1, ran1) →
  returned ran1 = None →
  ∃ out summary,
    stdout ran1 = out ++ [summary]
    ∧ match opened bad with
      | OpenFails e =>
          run ctx resolved connect (merged ++ bad :: rest)
          = (Some t1,
             mkRan out
               (Some (ErrWrap ("could not open source database "
                               +:+ srcPath bad) e)))
      | ListFails e =>
          run ctx resolved connect (merged ++ bad :: rest)
          = (Some t1,
             mkRan out
               (Some (ErrWrap ("could not list nodes from "
                               +:+ srcPath bad) e)))
      | Lists nodes =>
          ∀ pre post n t2 counts t3 e,
            nodes = pre ++ n :: post →
            putNodes ctx t1 pre 0 0 = (t2, Ok counts) →
            driverPut ctx t2 n = (t3, Err e) →
            run ctx resolved connect (merged ++ bad :: rest)
            = (Some t3,
               mkRan out
                 (Some (ErrWrap ("could not put node " +:+ Hash n) e)))
      end.
Proof.
  unfold run. intros Hrun Hnone.
  destruct resolved as [path|e]; [|discriminate].
  destruct (connect path) as [target|e] eqn:Hconn; [|discriminate].
  rewrite mergeSources_app.
  destruct (mergeSources ctx target merged 0 0 [])
    as [[t' out'] [[tn' td']|e]] eqn:Hloop;
    [|injection Hrun as <- <-; discriminate].
  injection Hrun as <- <-. cbn [stdout].
  eexists _, _. split; [reflexivity|].
  cbn [mergeSources].
  destruct (opened bad) as [e|e|nodes]; try reflexivity.
  intros pre post n t2 counts t3 e -> Hpre Hput.
  rewrite putNodes_app, Hpre. destruct counts as [a b].
  cbn [putNodes]. rewrite Hput. reflexivity.
Qed.

End MergeCommand.

(** ** The push command *)

Section PushCommand.
Import Commands Commands.Pushcmder.
Context {R : Type}.
Variable post : R → string → list Node → R * Posted.



Lemma pushBatches_stuck (url : string) (nodes : list Node) (fuel : nat)
    (st : Pushing R) :
  nodes ≠ [] →
  (∀ r u batch, ∃ r' resp, post r u batch = (r', Accepted resp)) →
  pushBatches post fuel url nodes 0 0 st = None.
Proof.
  intros Hnodes Hpost. revert st.
  induction fuel as [|fuel IH]; intros st; [reflexivity|].
  cbn [pushBatches].
  destruct (Z.ltb_spec 0 (Z.of_nat (length nodes))) as [_|Hge].
  - change (wrap64 (0 + 0)) with 0.
    destruct (Z.ltb_spec (Z.of_nat (length nodes)) 0) as [|_]; [lia|].
    change (Z.ltb 0 0 || Z.ltb 0 0) with false. cbv iota.
    unfold postBatch.
    destruct (Hpost (remote st) (url +:+ "/dag/nodes")
                (take (Z.to_nat (0 - 0)) (drop (Z.to_nat 0) nodes)))
      as (r' & resp & ->).
    apply IH.
  - destruct nodes; [contradiction|]. cbn [length] in Hge. lia.
Qed.

(** X17: the batch size is not checked. With local nodes to push, a
    negative batch size makes the command panic on the first slice
    expression, before anything is posted; a batch size of zero makes
    it post the empty batch again and again, for as long as the server
    accepts it, without ever advancing or ending. Without local nodes
    the command returns at once, whatever the batch size, and posts
    nothing. *)
Theorem push_batch_size_unchecked (fuel : nat) (serverURL path : string)
    (nodes : list Node) (batchSize : Z) (r : R) :
  - 2 ^ 63 <= batchSize <= 0 →
  (nodes ≠ [] → batchSize < 0 → (0 < fuel)%nat →
   ∃ msg, run post fuel serverURL (Ok path) (Lists nodes) batchSize r
          = Some (Panics msg))
  ∧ (nodes ≠ [] → batchSize = 0 →
     (∀ r u batch, ∃ r' resp, post r u batch = (r', Accepted resp)) →
     run post fuel serverURL (Ok path) (Lists nodes) batchSize r = None)
  ∧ (nodes = [] →
     run post fuel serverURL (Ok path) (Lists nodes) batchSize r
     = Some (Returns
         (mkPushing r [] 0 0 0,
          mkRan ["No local nodes to push." +:+ String LF EmptyString] None))).
Proof.
  intros Hb. unfold run. split; [|split].
  - intros Hnodes Hneg Hfuel.
    destruct (Nat.eqb_spec (length nodes) 0) as [Hnil|_].
    { destruct nodes; [contradiction|discriminate]. }
    destruct fuel as [|fuel]; [lia|]. cbn [pushBatches].
    destruct (Z.ltb_spec 0 (Z.of_nat (length nodes))) as [_|Hge].
    + rewrite Z.add_0_l, wrap64_small by lia.
      destruct (Z.ltb_spec (Z.of_nat (length nodes)) batchSize) as [|_]; [lia|].
      destruct (Z.ltb_spec batchSize 0) as [_|]; [|lia].
      rewrite orb_true_r. eauto.
    + destruct nodes; [contradiction|]. cbn [length] in Hge. lia.
  - intros Hnodes -> Hpost.
    destruct (Nat.eqb_spec (length nodes) 0) as [Hnil|_].
    { destruct nodes; [contradiction|discriminate]. }
    rewrite pushBatches_stuck by assumption. reflexivity.
  - intros ->. reflexivity.
Qed.

End PushCommand.

(** ** Recorded nodes at the node endpoint *)

Section RecordedNodes.
Context {S : Type} `{!Storer S}.

Lemma turnNodes_expressible (req : ChatRequest) (resp : ChatResponse)
    (n : Node) :
  n ∈ turnNodes req resp → is_Some (Marshal (Merkle.Content n)).
Proof.
  destruct (turnNodes_shape req resp)
    as (nodes & head & -> & Hlen & Hnodes & Hc & _).
  intros Hin. apply elem_of_app in Hin as [Hin|Hin].
  - apply list_elem_of_lookup in Hin as (i & Hi).
    destruct (Messages req !! i) as [msg|] eqn:Hmsg.
    + destruct (Hnodes i msg Hmsg) as (n' & Hn' & Hcn & _).
      rewrite Hi in Hn'. injection Hn' as <-. rewrite Hcn.
      apply messageContent_expressible.
    + apply lookup_ge_None in Hmsg. apply lookup_lt_Some in Hi. lia.
  - apply list_elem_of_singleton in Hin as ->. rewrite Hc.
    apply responseContent_expressible.
Qed.

(** X18: every node the recorder builds can be served: when the
    store's [Get] returns a node of a turn, [handleGetNode] answers 200
    with the node's hash, its parent hash ([null] for the first node
    of the turn) and its content as JSON; the encoding of such a node
    never fails. *)
Theorem handleGetNode_serves_recorded_nodes (req : ChatRequest)
    (resp : ChatResponse) (hash : string) (w : World S) (n : Node) :
  hash ≠ EmptyString →
  n ∈ turnNodes req resp →
  Get RequestCtx (storer w) hash = Ok n →
  ∃ content,
    Marshal (Merkle.Content n) = Some content
    ∧ handleGetNode hash w
      = JSON StatusOK
          ("{" +:+ quoted "hash" +:+ ":" +:+ appendString (Hash n)
           +:+ "," +:+ quoted "parent_hash" +:+ ":"
           +:+ match ParentHash n with
               | Some p => appendString p
               | None => "null"
               end
           +:+ "," +:+ quoted "content" +:+ ":" +:+ content +:+ "}")
    ∧ (turnNodes req resp !! 0%nat = Some n → ParentHash n = None).
Proof.
  intros Hhash Hin Hget.
  destruct (turnNodes_expressible req resp n Hin) as [content Hcontent].
  exists content. split; [exact Hcontent|]. split.
  - unfold handleGetNode. rewrite decide_False by exact Hhash.
    rewrite Hget. unfold marshal_Node. rewrite Hcontent. reflexivity.
  - destruct (turnNodes_shape req resp)
      as (nodes & head & -> & Hlen & Hnodes & _ & Hp & _).
    destruct (Messages req) as [|msg rest] eqn:Hmsgs.
    + destruct nodes; [|discriminate]. cbn. intros [= <-]. exact Hp.
    + destruct (Hnodes 0%nat msg eq_refl) as (n' & Hn' & _ & Hpn & _).
      rewrite lookup_app_l by (rewrite Hlen; cbn; lia).
      rewrite Hn'. intros [= <-]. exact Hpn.
Qed.

End RecordedNodes.

(** ** Instances of the further properties *)

Section FurtherInstances.
Import Endpoints Commands Samples Cases.

(** The sample turn and the same turn with other images, flags and
    times are recorded alike. *)
Lemma storeConversationTurn_reads_only_recorded_fields_witness :
  request ≠ request_again
  ∧ reply_ok ≠ reply_again
  ∧ storeConversationTurn Background request reply_ok empty_memory
    = storeConversationTurn Background request_again reply_again empty_memory.
Proof.
  split; [discriminate|]. split; [discriminate|].
  apply (storeConversationTurn_reads_only_recorded_fields Background
           request request_again reply_ok reply_again empty_memory);
    reflexivity.
Defined.

(** The sample conversation begins with the sample request's message. *)
Lemma turnNodes_share_prefix_witness :
  Messages conversation
  = Messages request
    ++ [mkMessage "assistant" "Hi there" []; mkMessage "user" "How are you?" []]
  ∧ take 1 (turnNodes conversation reply_again)
    = messageNodes "llama2" [hello] None
  ∧ take 1 (turnNodes request reply_ok) = messageNodes "llama2" [hello] None.
Proof.
  split; [reflexivity|].
  destruct (turnNodes_share_prefix request conversation reply_ok reply_again
              [mkMessage "assistant" "Hi there" [];
               mkMessage "user" "How are you?" []]
              eq_refl eq_refl) as (H1 & H2 & _).
  split; [exact H1|exact H2].
Defined.

(** A stream that goes on after the finished chunk: three lines reach
    the client, the text of the first two is recorded. *)
Lemma streaming_records_text_up_to_done_witness :
  (scan trailing_body None).1 = [line1] ++ line2 :: [line1]
  ∧ ∃ h,
      handleStreamingChat decodeChunk request
        (Responds StatusOK trailing_body None) None empty_memory = Returns h
      ∧ recorded h
        = [(Background, request,
            materialized (heard decodeChunk [line1; line2]) chunk2)]
      ∧ heard decodeChunk [line1; line2] = "Hi there"
      ∧ Body (reply h) = [line1 +:+ nl; line2 +:+ nl; line1 +:+ nl].
Proof.
  assert (Hscan : (scan trailing_body None).1 = [line1] ++ line2 :: [line1])
    by (vm_compute; reflexivity).
  split; [exact Hscan|].
  destruct (streaming_records_text_up_to_done decodeChunk request
              trailing_body None None empty_memory [line1] [line1] line2
              chunk2 Hscan eq_refl eq_refl) as (h & Hrun & Hrec & Hbody).
  { intros l c Hl. apply list_elem_of_singleton in Hl as ->.
    intros [= <-]. reflexivity. }
  exists h. split; [exact Hrun|]. split; [exact Hrec|].
  split; [reflexivity|]. rewrite Hbody. reflexivity.
Defined.

(** The history of the recorded sample conversation. *)
Lemma history_of_recorded_turn_witness :
  conversation_head ≠ EmptyString
  ∧ Ancestry RequestCtx (storer recorded_memory) conversation_head
    = Ok (reverse (turnNodes conversation reply_ok))
  ∧ ∃ history body,
      buildHistory RequestCtx conversation_head recorded_memory = Ok history
      ∧ (hm_Role <$> hist_Messages history)
        = ["user"; "assistant"; "user"; "assistant"]
      ∧ Depth history = 4
      ∧ handleGetHistory conversation_head recorded_memory
        = JSON StatusOK body.
Proof.
  assert (Hhead : conversation_head ≠ EmptyString)
    by (vm_compute; discriminate).
  assert (Hanc : Ancestry RequestCtx (storer recorded_memory) conversation_head
                 = Ok (reverse (turnNodes conversation reply_ok)))
    by (vm_compute; reflexivity).
  split; [exact Hhead|]. split; [exact Hanc|].
  destruct (history_of_recorded_turn conversation reply_ok conversation_head
              recorded_memory Hhead Hanc)
    as (history & body & Hrun & Htold & _ & _ & Hdepth & _ & _ & Hget).
  exists history, body. split; [exact Hrun|].
  split; [|split; [exact Hdepth|exact Hget]].
  transitivity ((λ t : string * string * string * option (gmap string value),
                   t.1.1.1) <$> (told <$> hist_Messages history)).
  - rewrite <- list_fmap_compose. reflexivity.
  - rewrite Htold. reflexivity.
Defined.

(** Two databases that share a node, merged into a fresh target. *)
Lemma merge_accounts_for_every_node_witness :
  returned (Mergecmder.run Background (Ok "merged.db") fresh [alice; bob]).2
  = None
  ∧ ∃ counts,
      counts = [(2, 0); (1, 1)]
      ∧ stdout (Mergecmder.run Background (Ok "merged.db") fresh
                  [alice; bob]).2
        = zip_with sourceLine [alice; bob] counts
          ++ [summaryLine 3 2 1 "merged.db"].
Proof.
  assert (Hnone : returned (Mergecmder.run Background (Ok "merged.db") fresh
                              [alice; bob]).2 = None)
    by (vm_compute; reflexivity).
  split; [exact Hnone|].
  destruct (merge_accounts_for_every_node Background (Ok "merged.db") fresh
              [alice; bob] _ _ (surjective_pairing _) Hnone)
    as (path & target & counts & _ & _ & _ & _ & Hout).
  { vm_compute. reflexivity. }
  exists [(2, 0); (1, 1)]. split; [reflexivity|].
  vm_compute. reflexivity.
Defined.

(** A source that cannot be opened, between two that can. *)
Lemma merge_stops_at_first_failure_witness :
  let t1 : gmap string Node :=
    foldl (λ t n, (driverPut Background t n).1) NewMemoryStorer
      [node_a; node_b] in
  let ran1 := (Mergecmder.run Background (Ok "merged.db") fresh [alice]).2 in
  Mergecmder.run Background (Ok "merged.db") fresh [alice] = (Some t1, ran1)
  ∧ returned ran1 = None
  ∧ ∃ out summary,
      stdout ran1 = out ++ [summary]
      ∧ Mergecmder.run Background (Ok "merged.db") fresh
          ([alice] ++ lost :: [bob])
        = (Some t1,
           mkRan out
             (Some (ErrWrap "could not open source database lost.db"
                      (ErrMessage "unable to open database file")))).
Proof.
  cbv zeta.
  assert (Hrun : Mergecmder.run Background (Ok "merged.db") fresh [alice]
                 = (Some (foldl (λ t n, (driverPut Background t n).1)
                            NewMemoryStorer [node_a; node_b]),
                    (Mergecmder.run Background (Ok "merged.db") fresh
                       [alice]).2))
    by (vm_compute; reflexivity).
  assert (Hnone : returned (Mergecmder.run Background (Ok "merged.db") fresh
                              [alice]).2 = None)
    by (vm_compute; reflexivity).
  split; [exact Hrun|]. split; [exact Hnone|].
  exact (merge_stops_at_first_failure Background (Ok "merged.db") fresh
           [alice] [bob] lost _ _ Hrun Hnone).
Defined.


(** A batch size of zero against a server that accepts everything. *)
Lemma push_batch_size_unchecked_witness :
  - 2 ^ 63 <= 0 <= 0
  ∧ Pushcmder.run accepting 1000 "http://host:6061" (Ok "tapes.db")
      (Lists [node_a]) 0 0%nat = None.
Proof.
  split; [lia|].
  destruct (push_batch_size_unchecked accepting 1000 "http://host:6061"
              "tapes.db" [node_a] 0 0%nat) as (_ & Hzero & _); [lia|].
  apply Hzero; [discriminate|reflexivity|].
  intros r u batch. eexists _, _. reflexivity.
Defined.

(** The head of the recorded sample conversation at the node
    endpoint. *)
Lemma handleGetNode_serves_recorded_nodes_witness :
  ∃ head content,
    last (turnNodes conversation reply_ok) = Some head
    ∧ Get RequestCtx (storer recorded_memory) conversation_head = Ok head
    ∧ Marshal (Merkle.Content head) = Some content
    ∧ Status (handleGetNode conversation_head recorded_memory) = StatusOK.
Proof.
  destruct (turnNodes_shape conversation reply_ok)
    as (nodes & head & Hturn & _).
  assert (Hlast : last (turnNodes conversation reply_ok) = Some head)
    by (rewrite Hturn; apply last_snoc).
  assert (Hin : head ∈ turnNodes conversation reply_ok)
    by (rewrite Hturn; apply elem_of_app; right; apply list_elem_of_here).
  assert (Hhead : conversation_head ≠ EmptyString)
    by (vm_compute; discriminate).
  assert (Hget : Get RequestCtx (storer recorded_memory) conversation_head
                 = Ok head).
  { assert (Hcomp : Get RequestCtx (storer recorded_memory) conversation_head
                    = match last (turnNodes conversation reply_ok) with
                      | Some n => Ok n
                      | None => Err (ErrNotFound conversation_head)
                      end) by (vm_compute; reflexivity).
    rewrite Hcomp, Hlast. reflexivity. }
  destruct (handleGetNode_serves_recorded_nodes conversation reply_ok
              conversation_head recorded_memory head Hhead Hin Hget)
    as (content & Hcontent & Hreply & _).
  exists head, content. split; [exact Hlast|]. split; [exact Hget|].
  split; [exact Hcontent|]. rewrite Hreply. reflexivity.
Defined.

End FurtherInstances.
